(** * conventor: a shallow embedding of [conventor.py]

    The program reads a YAML description (macros, sections, tables and
    an include list), applies regular-expression macros to every piece
    of text, renders one reStructuredText table per table definition and
    composes an index document.

    Conventions of the embedding.
    - Python [str] values are Stdlib strings, one [ascii] per code point
      (the code points U+0000 to U+00FF).
    - Values decoded from YAML are dynamically typed: the type [yaml].
    - A Python [dict] is an association list kept in insertion order.
    - A raised exception is the [Raise] case of [result].
    - Logging, file writes and the call to docutils are events of a
      trace; resolving a path, reading a file and the text layout of
      prettytable are parameters of the development. *)

From Stdlib Require Import String Ascii List Bool Arith ZArith Lia.
From Stdlib Require Import Permutation Sorted DecimalString.
Import ListNotations.
Open Scope string_scope.

(** ** Exceptions and results *)

Inductive exn : Type :=
| KeyError (key : string)
| TypeError
| AttributeError
| OSError
| ValueError
| YAMLError
| ReError          (* re.error: the pattern does not compile *)
| Unsupported.     (* the input leaves the fragment of Python modelled here *)

Inductive result (A : Type) : Type :=
| Ok (a : A)
| Raise (e : exn).
Arguments Ok {A} a.
Arguments Raise {A} e.

Definition rbind {A B} (r : result A) (k : A -> result B) : result B :=
  match r with
  | Ok a => k a
  | Raise e => Raise e
  end.

Declare Scope result_scope.
Delimit Scope result_scope with result.
Notation "x <- c ;; k" := (rbind c (fun x => k))
  (at level 61, c at next level, right associativity) : result_scope.
Notation "' pat <- c ;; k" := (rbind c (fun x => match x with pat => k end))
  (at level 61, pat pattern, c at next level, right associativity) : result_scope.

Definition is_ok {A} (r : result A) : bool :=
  match r with Ok _ => true | Raise _ => false end.

(** ** Dynamically typed values

    The values [yaml.safe_load] returns: null, booleans, integers,
    strings, sequences and mappings with string keys. *)

Definition dict (V : Type) : Type := list (string * V).

#[warnings="-register-all"]
Inductive yaml : Type :=
| YNull
| YBool (b : bool)
| YInt (z : Z)
| YStr (s : string)
| YSeq (l : list yaml)
| YMap (d : list (string * yaml)).

(** Python truth value, as tested by [if x:] and [not x]. *)
Definition truthy (v : yaml) : bool :=
  match v with
  | YNull => false
  | YBool b => b
  | YInt z => negb (Z.eqb z 0)
  | YStr s => negb (String.eqb s "")
  | YSeq l => match l with [] => false | _ => true end
  | YMap d => match d with [] => false | _ => true end
  end.

(** [str(v)] as an f-string inserts it.  Only scalars are covered. *)
Definition py_str (v : yaml) : result string :=
  match v with
  | YStr s => Ok s
  | YInt z => Ok (NilZero.string_of_int (Z.to_int z))
  | YBool true => Ok "True"
  | YBool false => Ok "False"
  | YNull => Ok "None"
  | _ => Raise Unsupported
  end.

(** ** Insertion-ordered dictionaries *)

Section Dict.
Context {V : Type}.

Definition keys (d : dict V) : list string := map fst d.

Fixpoint dict_get (k : string) (d : dict V) : option V :=
  match d with
  | [] => None
  | (k', v) :: d' => if String.eqb k k' then Some v else dict_get k d'
  end.

(** [d[k] = v]: an existing key keeps its place, a new key goes last. *)
Fixpoint dict_set (k : string) (v : V) (d : dict V) : dict V :=
  match d with
  | [] => [(k, v)]
  | (k', v') :: d' =>
      if String.eqb k k' then (k', v) :: d' else (k', v') :: dict_set k v d'
  end.

(** [d.update(e)], also the meaning of the display [{**d, **e}]. *)
Definition dict_update (d e : dict V) : dict V :=
  fold_left (fun acc kv => dict_set (fst kv) (snd kv) acc) e d.

Definition dict_remove (k : string) (d : dict V) : dict V :=
  filter (fun kv => negb (String.eqb k (fst kv))) d.

(** [d.pop(k)] without a default. *)
Definition dict_pop (k : string) (d : dict V) : result (V * dict V) :=
  match dict_get k d with
  | Some v => Ok (v, dict_remove k d)
  | None => Raise (KeyError k)
  end.

(** The invariant of a Python dict: no key occurs twice. *)
Definition wf_dict (d : dict V) : Prop := NoDup (keys d).
End Dict.

(** ** Text helpers *)

Definition newline : ascii := "010"%char.

(** [s.split(sep)] for a one-character separator: never empty, [[""]]
    for the empty string. *)
Fixpoint split_on (sep : ascii) (s : string) : list string :=
  match s with
  | EmptyString => [""]
  | String c s' =>
      if Ascii.eqb c sep then "" :: split_on sep s'
      else match split_on sep s' with
           | [] => [String c ""]
           | l :: ls => String c l :: ls
           end
  end.

(** [s.split("\n")] *)
Definition split_lines (s : string) : list string := split_on newline s.

(** Whether a character occurs in a string. *)
Fixpoint contains_char (c : ascii) (s : string) : bool :=
  match s with
  | EmptyString => false
  | String a s' => Ascii.eqb a c || contains_char c s'
  end.

(** ["-" * n] *)
Fixpoint repeat_char (c : ascii) (n : nat) : string :=
  match n with
  | O => ""
  | S n' => String c (repeat_char c n')
  end.

Definition nl : string := String newline "".

(** ** The fragment of [re] used by the program

    [re.sub(pattern, repl, text)] is modelled for patterns made of
    single-character atoms (a literal, [.], an escape such as [\W], a
    bracketed set) each followed by at most one greedy quantifier
    [*], [+] or [?], and for replacement strings without a backslash.
    Groups, alternation, anchors, counted and lazy repetition are
    answered by [Unsupported]. *)

Module Re.

Definition charset : Type := ascii -> bool.

Inductive quant : Type := One | Opt | Star | Plus.

Record item : Type := Item { it_set : charset; it_q : quant }.

Definition pattern : Type := list item.

Definition code (c : ascii) : nat := nat_of_ascii c.

Definition between (lo hi : nat) (c : ascii) : bool :=
  Nat.leb lo (code c) && Nat.leb (code c) hi.

Definition is_digit : charset := between 48 57.

Definition is_ascii_alpha : charset :=
  fun c => between 65 90 c || between 97 122 c.

(** The alphanumeric code points of U+0080..U+00FF. *)
Definition is_latin1_alnum : charset :=
  fun c =>
    existsb (Nat.eqb (code c)) [170; 178; 179; 181; 185; 186]
    || between 188 190 c || between 192 214 c
    || between 216 246 c || between 248 255 c.

(** [str.isalnum] on one character. *)
Definition is_alnum : charset :=
  fun c => is_digit c || is_ascii_alpha c || is_latin1_alnum c.

(** [\w] for a [str] pattern: alphanumeric or the underscore. *)
Definition is_word : charset :=
  fun c => is_alnum c || Ascii.eqb c "_".

(** [\s] for a [str] pattern. *)
Definition is_space : charset :=
  fun c => between 9 13 c || between 28 32 c
           || Nat.eqb (code c) 133 || Nat.eqb (code c) 160.

Definition is_dot : charset := fun c => negb (Ascii.eqb c newline).

Definition single (a : ascii) : charset := Ascii.eqb a.
Definition union (f g : charset) : charset := fun c => f c || g c.
Definition compl (f : charset) : charset := fun c => negb (f c).
Definition nothing : charset := fun _ => false.

(** The character after a backslash, in a pattern or in a set. *)
Definition escape (e : ascii) : result charset :=
  if Ascii.eqb e "d" then Ok is_digit
  else if Ascii.eqb e "D" then Ok (compl is_digit)
  else if Ascii.eqb e "w" then Ok is_word
  else if Ascii.eqb e "W" then Ok (compl is_word)
  else if Ascii.eqb e "s" then Ok is_space
  else if Ascii.eqb e "S" then Ok (compl is_space)
  else if Ascii.eqb e "n" then Ok (single newline)
  else if Ascii.eqb e "t" then Ok (single "009")
  else if Ascii.eqb e "r" then Ok (single "013")
  else if is_digit e || is_ascii_alpha e then Raise Unsupported
  else Ok (single e).

Definition quant_of (c : ascii) : option quant :=
  if Ascii.eqb c "*" then Some Star
  else if Ascii.eqb c "+" then Some Plus
  else if Ascii.eqb c "?" then Some Opt
  else None.

(** Characters with a meaning of their own outside a set that the
    fragment does not cover. *)
Definition is_special (c : ascii) : bool :=
  existsb (Ascii.eqb c) ["^"; "$"; "{"; "}"; "]"; "|"; "("; ")"]%char.

Inductive pmode : Type :=
| Top
| InSet (neg : bool) (empty : bool) (acc : charset).

Definition close_set (neg : bool) (acc : charset) : item :=
  Item (if neg then compl acc else acc) One.

(** One pass over the pattern.  [acc] holds the items read so far,
    last first; [canq] tells that the last item may take a quantifier. *)
Fixpoint parse (acc : list item) (canq : bool) (m : pmode) (s : string)
  : result pattern :=
  match m with
  | Top =>
      match s with
      | EmptyString => Ok (rev acc)
      | String c rest =>
          match quant_of c with
          | Some q =>
              match acc with
              | [] => Raise ReError
              | it :: acc' =>
                  if canq then parse (Item (it_set it) q :: acc') false Top rest
                  else Raise Unsupported
              end
          | None =>
              if Ascii.eqb c "\" then
                match rest with
                | EmptyString => Raise ReError
                | String e rest' =>
                    match escape e with
                    | Ok cs => parse (Item cs One :: acc) true Top rest'
                    | Raise x => Raise x
                    end
                end
              else if Ascii.eqb c "[" then
                match rest with
                | String "^" rest' => parse acc false (InSet true true nothing) rest'
                | _ => parse acc false (InSet false true nothing) rest
                end
              else if Ascii.eqb c "." then parse (Item is_dot One :: acc) true Top rest
              else if is_special c then Raise Unsupported
              else parse (Item (single c) One :: acc) true Top rest
          end
      end
  | InSet neg empty cs =>
      match s with
      | EmptyString => Raise ReError
      | String c rest =>
          if Ascii.eqb c "]" then
            if empty then Raise Unsupported
            else parse (close_set neg cs :: acc) true Top rest
          else if Ascii.eqb c "\" then
            match rest with
            | EmptyString => Raise ReError
            | String e rest' =>
                match escape e with
                | Ok es =>
                    match rest' with
                    | String "-" (String "]" _) | String "]" _ =>
                        parse acc false (InSet neg false (union cs es)) rest'
                    | String "-" _ => Raise Unsupported
                    | _ => parse acc false (InSet neg false (union cs es)) rest'
                    end
                | Raise x => Raise x
                end
            end
          else if Ascii.eqb c "[" then Raise Unsupported
          else if Ascii.eqb c "-" then
            match rest with
            | String "]" _ => parse acc false (InSet neg false (union cs (single c))) rest
            | _ => if empty
                   then match rest with
                        | String "-" _ => Raise Unsupported
                        | _ => parse acc false (InSet neg false (union cs (single c))) rest
                        end
                   else Raise Unsupported
            end
          else
            match rest with
            | String "-" (String b rest') =>
                if Ascii.eqb b "]" then
                  parse acc false (InSet neg false (union cs (single c))) rest
                else if (is_digit c || is_ascii_alpha c)
                        && (is_digit b || is_ascii_alpha b) then
                  if Nat.leb (code c) (code b) then
                    parse acc false
                      (InSet neg false (union cs (between (code c) (code b)))) rest'
                  else Raise ReError
                else Raise Unsupported
            | _ => parse acc false (InSet neg false (union cs (single c))) rest
            end
      end
  end.

(** [re.compile(pattern)] *)
Definition compile (p : string) : result pattern := parse [] false Top p.

(** Greedy repetition of one character set, then the continuation [k];
    the result is the number of characters consumed. *)
Fixpoint star (cs : charset) (k : string -> option nat) (s : string)
  : option nat :=
  match s with
  | EmptyString => k ""
  | String c s' =>
      if cs c then
        match star cs k s' with
        | Some n => Some (S n)
        | None => k s
        end
      else k s
  end.

(** The first match of [p] at the start of [s], in the priority order
    of a backtracking matcher: its length. *)
Fixpoint match_here (p : pattern) : string -> option nat :=
  match p with
  | [] => fun _ => Some 0
  | it :: p' =>
      let k := match_here p' in
      let cs := it_set it in
      match it_q it with
      | One => fun s =>
          match s with
          | String c s' => if cs c then option_map S (k s') else None
          | EmptyString => None
          end
      | Opt => fun s =>
          match s with
          | String c s' =>
              if cs c then
                match k s' with
                | Some n => Some (S n)
                | None => k s
                end
              else k s
          | EmptyString => k ""
          end
      | Star => star cs k
      | Plus => fun s =>
          match s with
          | String c s' => if cs c then option_map S (star cs k s') else None
          | EmptyString => None
          end
      end
  end.

(** The scan of [Pattern.sub] (Python 3.7 and later): leftmost matches
    that do not overlap; an empty match is replaced too, and the search
    then moves one character on.  [skip] counts the characters of the
    current match still to be dropped. *)
Fixpoint sub_scan (p : pattern) (repl : string) (skip : nat) (s : string)
  {struct s} : string :=
  match skip with
  | S k =>
      match s with
      | String _ s' => sub_scan p repl k s'
      | EmptyString => ""
      end
  | O =>
      match match_here p s with
      | Some (S n) =>
          repl ++ match s with
                  | String _ s' => sub_scan p repl n s'
                  | EmptyString => ""
                  end
      | Some O =>
          repl ++ match s with
                  | String c s' => String c (sub_scan p repl 0 s')
                  | EmptyString => ""
                  end
      | None =>
          match s with
          | String c s' => String c (sub_scan p repl 0 s')
          | EmptyString => ""
          end
      end
  end.

Fixpoint has_backslash (s : string) : bool :=
  match s with
  | EmptyString => false
  | String c s' => Ascii.eqb c "\" || has_backslash s'
  end.

(** A replacement without a backslash is taken literally. *)
Definition template (repl : string) : result string :=
  if has_backslash repl then Raise Unsupported else Ok repl.

(** [re.sub(find, replace, content)] on values as they come from YAML. *)
Definition sub (find : string) (replace content : yaml) : result yaml :=
  (p <- compile find ;;
   match replace with
   | YStr r =>
       t <- template r ;;
       match content with
       | YStr c => Ok (YStr (sub_scan p t 0 c))
       | _ => Raise TypeError
       end
   | _ => Raise TypeError
   end)%result.

End Re.

(** ** MacroResolver: [Conventor.macro_substitute] *)

(** [m[k]] *)
Definition subscript (m : yaml) (k : string) : result yaml :=
  match m with
  | YMap d =>
      match dict_get k d with
      | Some v => Ok v
      | None => Raise (KeyError k)
      end
  | _ => Raise TypeError
  end.

(** [m.get(k, default)] *)
Definition yaml_get (m : yaml) (k : string) (default : yaml) : result yaml :=
  match m with
  | YMap d =>
      match dict_get k d with
      | Some v => Ok v
      | None => Ok default
      end
  | _ => Raise AttributeError
  end.

(** The operand of [**] in a dict display has to be a mapping. *)
Definition as_mapping (v : yaml) : result (dict yaml) :=
  match v with
  | YMap d => Ok d
  | _ => Raise TypeError
  end.

(** [{**self.macros["everywhere"], **self.macros.get(section, {})}] *)
Definition macros_to_process (macros : yaml) (section : string)
  : result (dict yaml) :=
  (ev <- subscript macros "everywhere" ;;
   evd <- as_mapping ev ;;
   sc <- yaml_get macros section (YMap []) ;;
   scd <- as_mapping sc ;;
   Ok (dict_update evd scd))%result.

(** The loop [for find, replace in ...: content = re.sub(...)]. *)
Fixpoint apply_rules (rules : dict yaml) (content : yaml) : result yaml :=
  match rules with
  | [] => Ok content
  | (find, replace) :: rest =>
      (c <- Re.sub find replace content ;; apply_rules rest c)%result
  end.

Definition macro_substitute (macros : yaml) (content : yaml) (section : string)
  : result yaml :=
  (rules <- macros_to_process macros section ;; apply_rules rules content)%result.

(** ** The fragment of [pathlib] used by the program

    POSIX paths.  What [Path.resolve()] returns depends on the file
    system (working directory, symbolic links), so the program takes it
    as a parameter, [realpath]; [resolve cwd] is what it returns in a
    file system without symbolic links with working directory [cwd],
    and serves the examples and the two statements about such file
    systems. *)

Module PathLib.

Inductive root : Type := Relative | Slash | DoubleSlash.

Record path : Type := Path { p_root : root; p_parts : list string }.

Definition root_eqb (a b : root) : bool :=
  match a, b with
  | Relative, Relative | Slash, Slash | DoubleSlash, DoubleSlash => true
  | _, _ => false
  end.

Fixpoint parts_eqb (a b : list string) : bool :=
  match a, b with
  | [], [] => true
  | x :: a', y :: b' => String.eqb x y && parts_eqb a' b'
  | _, _ => false
  end.

Definition path_eqb (a b : path) : bool :=
  root_eqb (p_root a) (p_root b) && parts_eqb (p_parts a) (p_parts b).

(** One leading slash or three and more give the root [/], exactly
    two give the root [//]. *)
Definition root_of (s : string) : root :=
  match s with
  | String "/" (String "/" (String "/" _)) => Slash
  | String "/" (String "/" _) => DoubleSlash
  | String "/" _ => Slash
  | _ => Relative
  end.

Definition keep_part (c : string) : bool :=
  negb (String.eqb c "") && negb (String.eqb c ".").

(** [Path(s)]: empty components and [.] are dropped, [..] is kept. *)
Definition of_string (s : string) : path :=
  Path (root_of s) (filter keep_part (split_on "/" s)).

(** [p / q] *)
Definition join (p q : path) : path :=
  match p_root q with
  | Relative => Path (p_root p) (p_parts p ++ p_parts q)%list
  | _ => q
  end.

(** [p.parent] *)
Definition parent (p : path) : path :=
  Path (p_root p) (removelast (p_parts p)).

(** [p.name] *)
Definition name (p : path) : string := last (p_parts p) "".

(** [s.rfind(c)] *)
Fixpoint rfind (c : ascii) (s : string) : option nat :=
  match s with
  | EmptyString => None
  | String a s' =>
      match rfind c s' with
      | Some i => Some (S i)
      | None => if Ascii.eqb a c then Some 0 else None
      end
  end.

(** The position of the dot that starts the suffix: neither the first
    nor the last character of the name. *)
Definition suffix_dot (n : string) : option nat :=
  match rfind "." n with
  | Some i => if Nat.ltb 0 i && Nat.ltb i (String.length n - 1) then Some i else None
  | None => None
  end.

(** [p.suffix] *)
Definition suffix (p : path) : string :=
  let n := name p in
  match suffix_dot n with
  | Some i => substring i (String.length n - i) n
  | None => ""
  end.

(** [p.stem] *)
Definition stem (p : path) : string :=
  let n := name p in
  match suffix_dot n with
  | Some i => substring 0 i n
  | None => n
  end.

Definition normalize (parts : list string) : list string :=
  fold_left
    (fun acc c => if String.eqb c ".." then removelast acc else (acc ++ [c])%list)
    parts [].

(** The path [p.resolve()] returns, when it returns one, where no
    component of [p] is a symbolic link and the working directory is
    [cwd]: absolute, with root [/] also for a path that starts with two
    slashes, and without the [..] components. *)
Definition lexical (cwd : list string) (p : path) : path :=
  match p_root p with
  | Relative => Path Slash (normalize (cwd ++ p_parts p)%list)
  | _ => Path Slash (normalize (p_parts p))
  end.

(** A component with the character U+0000 makes [p.resolve()] raise
    ValueError ("embedded null byte"). *)
Definition has_nul (p : path) : bool :=
  existsb (contains_char "000") (p_parts p).

(** [p.resolve()] in a file system without symbolic links, with working
    directory [cwd]. *)
Definition resolve (cwd : list string) (p : path) : result path :=
  if has_nul p then Raise ValueError else Ok (lexical cwd p).

(** [p.parents]: the nearest ancestor first, the root last. *)
Fixpoint ancestors (r : root) (parts : list string) (n : nat) : list path :=
  match n with
  | O => []
  | S n' => Path r (firstn n' parts) :: ancestors r parts n'
  end.

Definition parents (p : path) : list path :=
  ancestors (p_root p) (p_parts p) (List.length (p_parts p)).

(** [d in p.parents] *)
Definition in_parents (d p : path) : bool := existsb (path_eqb d) (parents p).

End PathLib.
Import PathLib.

(** ** Effects: warnings, writes and the hand-over to docutils *)

Inductive event : Type :=
| Warn (msg : string)                    (* logger.warning *)
| Mkdir (p : path)                       (* p.mkdir(parents=True, exist_ok=True) *)
| WriteText (p : path) (text : string)   (* p.write_text(text) *)
| PublishFile (src dst : path).          (* docutils publish_file, html writer *)

(** A computation yields the events it attempted, in order, and a value
    or the exception that stopped it. *)
Definition M (A : Type) : Type := (list event * result A)%type.

Definition ret {A} (a : A) : M A := ([], Ok a).

Definition bind {A B} (m : M A) (k : A -> M B) : M B :=
  match m with
  | (t, Ok a) => let (t', r) := k a in ((t ++ t')%list, r)
  | (t, Raise e) => (t, Raise e)
  end.

Definition lift {A} (r : result A) : M A := ([], r).

Definition warn (msg : string) : M unit := ([Warn msg], Ok tt).

Declare Scope io_scope.
Delimit Scope io_scope with io.
Notation "x <- c ;; k" := (bind c (fun x => k))
  (at level 61, c at next level, right associativity) : io_scope.
Notation "' pat <- c ;; k" := (bind c (fun x => match x with pat => k end))
  (at level 61, pat pattern, c at next level, right associativity) : io_scope.

(** A [for] loop that threads a value through its body. *)
Fixpoint for_fold {A B} (body : B -> A -> M B) (l : list A) (b : B) : M B :=
  match l with
  | [] => ret b
  | a :: l' => (b' <- body b a ;; for_fold body l' b')%io
  end.

(** [for x in v] *)
Definition iterate (v : yaml) : result (list yaml) :=
  match v with
  | YSeq l => Ok l
  | YMap d => Ok (map YStr (keys d))
  | YStr s => Ok (map (fun c => YStr (String c "")) (list_ascii_of_string s))
  | _ => Raise TypeError
  end.

(** [v.items()] *)
Definition yaml_items (v : yaml) : result (dict yaml) :=
  match v with
  | YMap d => Ok d
  | _ => Raise AttributeError
  end.

(** A dict display or comprehension: the pairs are stored one by one. *)
Definition dict_of_list {V} (l : list (string * V)) : dict V := dict_update [] l.

Record Conventor : Type := {
  macros : yaml;
  sections : yaml;
  tables : dict yaml
}.

Definition re_sort : string := "__re-sort__".


(** ** Sorting

    [sorted(keys, key=f)] computes [f] once for every element, in order,
    and sorts stably by [<] on the results.  The stable result is unique,
    so a stable insertion sort stands for it. *)

Fixpoint map_result {A B} (f : A -> result B) (l : list A) : result (list B) :=
  match l with
  | [] => Ok []
  | a :: l' => (b <- f a ;; bs <- map_result f l' ;; Ok (b :: bs))%result
  end.

(** An element decorated with its sort key. *)
Definition decorated : Type := (string * string)%type.

Fixpoint insert (x : decorated) (l : list decorated) : list decorated :=
  match l with
  | [] => [x]
  | y :: l' => if String.ltb (fst y) (fst x) then y :: insert x l' else x :: l
  end.

Definition sort_decorated (l : list decorated) : list decorated :=
  fold_right insert [] l.

(** [re.sub("[\W_]+", "", key)] *)
Definition sort_key (key : string) : result string :=
  (r <- Re.sub "[\W_]+" (YStr "") (YStr key) ;;
   match r with
   | YStr s => Ok s
   | _ => Raise TypeError
   end)%result.

(** [sorted(all_keys, key=lambda key: re.sub("[\W_]+", "", key))] *)
Definition sorted_keys (all_keys : list string) : result (list string) :=
  (ks <- map_result (fun k => sk <- sort_key k ;; Ok (sk, k)) all_keys ;;
   Ok (map snd (sort_decorated ks)))%result.

Section Program.

(** [p.resolve()], as the file system of the run answers it: symbolic
    links followed, ValueError for a path with the character U+0000.
    The run adds plain directories and files only, which changes the
    answer for no path. *)
Variable realpath : path -> result path.
(** [yaml.safe_load(open(p))] *)
Variable load_yaml : path -> result yaml.
(** Whether an attempted write, mkdir or publish raises [OSError]. *)
Variable io_error : event -> bool.
(** [PrettyTable.get_string()] of a two-column table without header,
    with rules between all rows, both columns aligned left, holding the
    given rows. *)
Variable pt_get_string : list (yaml * yaml) -> string.

Definition emit (e : event) : M unit :=
  ([e], if io_error e then Raise OSError else Ok tt).

(** *** Loader: [Conventor.__init__] *)

Definition not_yaml_warning (i : string) : string :=
  "Cowardly refusing to include content for file " ++ i ++ " "
  ++ "it doesn't appear to be a YAML file!".

Definition include_escape_warning (i : string) : string :=
  "Cowardly refusing to include content for file " ++ i ++ " "
  ++ "it appears to escape the parent directory!".

(** [input_path.parent / i] *)
Definition include_path (input_path : path) (i : string) : path :=
  join (parent input_path) (of_string i).

(** The body of [for i in include]. *)
Definition include_one (input_path : path) (input_data : dict yaml) (i : yaml)
  : M (dict yaml) :=
  match i with
  | YStr i =>
      (i_path <- lift (realpath (include_path input_path i)) ;;
       _ <- (if negb (String.eqb (suffix i_path) ".yaml")
             then warn (not_yaml_warning i) else ret tt) ;;
       root_dir <- lift (realpath (parent input_path)) ;;
       if negb (in_parents root_dir i_path) then
         _ <- warn (include_escape_warning i) ;;
         ret input_data
       else
         included_data <- lift (load_yaml i_path) ;;
         items <- lift (yaml_items included_data) ;;
         ret (dict_update input_data
                (dict_of_list
                   (map (fun kv => (stem i_path ++ "/" ++ fst kv, snd kv)) items))))%io
  | _ => lift (Raise TypeError)
  end.

Definition __init__ (input_path : path) : M Conventor :=
  (root_doc <- lift (load_yaml input_path) ;;
   input_data <- lift (match root_doc with
                       | YMap d => Ok d
                       | YSeq _ => Raise TypeError
                       | _ => Raise AttributeError
                       end) ;;
   ' (include, input_data) <- lift (dict_pop "include" input_data) ;;
   entries <- lift (iterate include) ;;
   input_data <- for_fold (include_one input_path) entries input_data ;;
   ' (macros, input_data) <- lift (dict_pop "macros" input_data) ;;
   ' (sections, input_data) <- lift (dict_pop "sections" input_data) ;;
   ret {| macros := macros; sections := sections; tables := input_data |})%io.

(** *** TableRenderer: [Conventor.get_rst_table] *)

Definition no_entries (name : string) : string :=
  nl ++ "**Table <" ++ name ++ "> has no entries**" ++ nl.

Definition table_directive : string :=
  ".. table::" ++ nl ++ "    :widths: auto" ++ nl ++ nl.

(** The loop [for key in all_keys] with its [table.add_row] calls:
    the rows handed to prettytable, in order. *)
Fixpoint add_rows (macros : yaml) (contents : dict yaml) (all_keys : list string)
  : result (list (yaml * yaml)) :=
  match all_keys with
  | [] => Ok []
  | key :: rest =>
      if String.eqb key re_sort then add_rows macros contents rest
      else
        let left := YStr key in
        let right := match dict_get key contents with
                     | Some v => v
                     | None => YNull
                     end in
        (l <- macro_substitute macros left "left" ;;
         r <- macro_substitute macros right "right" ;;
         rows <- add_rows macros contents rest ;;
         Ok ((l, r) :: rows))%result
  end.

(** The key order of the rendering loop. *)
Definition row_keys (contents : dict yaml) : result (list string) :=
  let all_keys := keys contents in
  let flag := match dict_get re_sort contents with
              | Some v => v
              | None => YBool false
              end in
  if truthy flag then sorted_keys all_keys else Ok all_keys.

(** The rows of the table, as [add_row] receives them. *)
Definition table_rows (macros : yaml) (contents : dict yaml)
  : result (list (yaml * yaml)) :=
  (all_keys <- row_keys contents ;; add_rows macros contents all_keys)%result.

(** The loop [for row in table.get_string().split("\n")]. *)
Definition indent_rows (text : string) : string :=
  fold_left (fun table_contents row => table_contents ++ "    " ++ row ++ nl)
            (split_lines text) table_directive.

Definition get_rst_table (macros : yaml) (name : string) (contents : yaml)
  : result string :=
  if negb (truthy contents) then Ok (no_entries name)
  else
    (d <- match contents with
          | YMap d => Ok d
          | _ => Raise AttributeError
          end ;;
     rows <- table_rows macros d ;;
     Ok (indent_rows (pt_get_string rows)))%result.

(** *** IndexComposer: [Conventor.get_index_rst] *)

Definition is_none (v : yaml) : bool :=
  match v with YNull => true | _ => false end.

(** [title.split("\n")] *)
Definition str_split_lines (v : yaml) : result (list string) :=
  match v with
  | YStr s => Ok (split_lines s)
  | _ => Raise AttributeError
  end.

(** [output += v] *)
Definition str_concat (output : string) (v : yaml) : result string :=
  match v with
  | YStr s => Ok (output ++ s)
  | _ => Raise TypeError
  end.

Definition rule (width : nat) : string := repeat_char "-" width.

(** What [if not hidden:] adds to the output. *)
Definition heading (anchor : yaml) (max_line_length : nat) (title : yaml)
  (output : string) : result string :=
  (let output := output ++ nl in
   output <- (if truthy anchor
              then a <- py_str anchor ;; Ok (output ++ ".. _" ++ a ++ ":" ++ nl ++ nl)
              else Ok output) ;;
   let output := output ++ rule max_line_length in
   let output := output ++ nl in
   output <- str_concat output title ;;
   let output := output ++ nl in
   let output := output ++ rule max_line_length in
   Ok (output ++ nl ++ nl))%result.

(** The body of [for section in self.sections]. *)
Definition index_section (macros : yaml) (output : string) (section : yaml)
  : M string :=
  (title <- lift (yaml_get section "title" YNull) ;;
   anchor <- lift (yaml_get section "anchor" YNull) ;;
   contents <- lift (yaml_get section "contents" YNull) ;;
   hidden <- lift (yaml_get section "hidden" (YBool false)) ;;
   if is_none title || is_none contents then
     _ <- warn "Empty section found!" ;;
     ret output
   else
     title <- lift (macro_substitute macros title "title") ;;
     contents <- lift (macro_substitute macros contents "contents") ;;
     lines <- lift (str_split_lines title) ;;
     let max_line_length := list_max (map String.length lines) in
     output <- lift (if negb (truthy hidden)
                     then heading anchor max_line_length title output
                     else Ok output) ;;
     lift (str_concat output contents))%io.

Definition get_index_rst (self : Conventor) : M string :=
  (secs <- lift (iterate (sections self)) ;;
   for_fold (index_section (macros self)) secs "")%io.

(** *** Publisher: [Conventor.process] *)

Definition skip_index_warning : string :=
  "Skipping table named index, as it " ++ "would be overwritten anyway!".

Definition table_escape_warning (table : string) : string :=
  "Cowardly refusing to write content for table " ++ table ++ " "
  ++ "it appears to escape the parent directory!".

(** [output_dir / f"{table}.rst"] *)
Definition table_path (output_dir : path) (table : string) : path :=
  join output_dir (of_string (table ++ ".rst")).

(** The body of [for table, contents in self.tables.items()]. *)
Definition process_table (macros : yaml) (output_dir : path)
  (table : string) (contents : yaml) : M unit :=
  if String.eqb table "index" then warn skip_index_warning
  else
    let rst_table_path := table_path output_dir table in
    (resolved_dir <- lift (realpath output_dir) ;;
     resolved_path <- lift (realpath rst_table_path) ;;
     _ <- (if negb (in_parents resolved_dir resolved_path)
           then warn (table_escape_warning table) else ret tt) ;;
     _ <- emit (Mkdir (parent rst_table_path)) ;;
     text <- lift (get_rst_table macros table contents) ;;
     emit (WriteText rst_table_path text))%io.

Definition process (self : Conventor) (output_dir : path) : M unit :=
  (_ <- for_fold (fun _ kv => process_table (macros self) output_dir (fst kv) (snd kv))
                 (tables self) tt ;;
   index <- get_index_rst self ;;
   _ <- emit (WriteText (join output_dir (of_string "index.rst")) index) ;;
   emit (PublishFile (join output_dir (of_string "index.rst"))
                     (join output_dir (of_string "index.html"))))%io.

End Program.

(** ** Vocabulary of the statements *)

(** Decorated elements in ascending order of their sort keys. *)
Definition key_le (x y : decorated) : Prop := String.leb (fst x) (fst y) = true.

(** A list of keys with the sort key [f] in front of each. *)
Definition decorate (f : string -> string) (l : list string) : list decorated :=
  map (fun k => (f k, k)) l.

(** The stable sort of a list of keys by the sort key [f]. *)
Definition sort_by (f : string -> string) (l : list string) : list string :=
  map snd (sort_decorated (decorate f l)).

(** The characters of [s] that [keep] accepts, in order. *)
Fixpoint str_filter (keep : ascii -> bool) (s : string) : string :=
  match s with
  | EmptyString => ""
  | String c s' => if keep c then String c (str_filter keep s') else str_filter keep s'
  end.

(** What is left of a key once every character that is neither a letter
    nor a digit is removed. *)
Definition strip_non_alnum (key : string) : string := str_filter Re.is_alnum key.

(** The sort key as the specification words it: every character that is
    not a letter, a digit or an underscore is removed. *)
Definition spec_sort_key (key : string) : string := str_filter Re.is_word key.

(** The length of the leading run of characters of a set. *)
Fixpoint run (cs : Re.charset) (s : string) : nat :=
  match s with
  | EmptyString => 0
  | String c s' => if cs c then S (run cs s') else 0
  end.

(** Every key but the pseudo-key "__re-sort__" makes a row. *)
Definition not_reserved (key : string) : bool := negb (String.eqb key re_sort).

(** The flag of a table definition, [contents.get("__re-sort__", False)]. *)
Definition re_sort_flag (contents : dict yaml) : yaml :=
  match dict_get re_sort contents with
  | Some v => v
  | None => YBool false
  end.

(** The row made from one key of a table definition. *)
Definition row_of (macros : yaml) (contents : dict yaml) (key : string)
  : result (yaml * yaml) :=
  (l <- macro_substitute macros (YStr key) "left" ;;
   r <- macro_substitute macros
          (match dict_get key contents with Some v => v | None => YNull end)
          "right" ;;
   Ok (l, r))%result.

(** The row made from one entry of a table definition. *)
Definition row_of_item (macros : yaml) (kv : string * yaml) : result (yaml * yaml) :=
  (l <- macro_substitute macros (YStr (fst kv)) "left" ;;
   r <- macro_substitute macros (snd kv) "right" ;;
   Ok (l, r))%result.

(** A field of a section, [section.get(k, default)]. *)
Definition field (section : dict yaml) (k : string) (default : yaml) : yaml :=
  match dict_get k section with
  | Some v => v
  | None => default
  end.

(** The length of the longest line of a text, read character by
    character; [cur] is the length of the line being read. *)
Fixpoint longest_line (cur : nat) (s : string) : nat :=
  match s with
  | EmptyString => cur
  | String c s' =>
      if Ascii.eqb c newline then Nat.max cur (longest_line 0 s')
      else longest_line (S cur) s'
  end.

(** The width of a heading: the length of the longest line of its title. *)
Definition title_width (title : string) : nat := longest_line 0 title.

(** The anchor of a section as the heading shows it: [str(anchor)] when
    the anchor is truthy, nothing when it is missing, null or empty. *)
Definition anchor_text (anchor : yaml) (a : string) : option string :=
  if truthy anchor then Some a else None.

(** The anchor-reference marker line and the blank line after it. *)
Definition anchor_block (anchor : option string) : string :=
  match anchor with
  | Some a => ".. _" ++ a ++ ":" ++ nl ++ nl
  | None => ""
  end.

(** The text one section adds to the index. *)
Definition fragment (hidden : bool) (anchor : option string) (title contents : string)
  : string :=
  if hidden then contents
  else nl ++ anchor_block anchor
          ++ rule (title_width title) ++ nl
          ++ title ++ nl
          ++ rule (title_width title) ++ nl ++ nl
          ++ contents.

(** [k in l] for a list of keys. *)
Definition has_key (k : string) (l : list string) : bool :=
  existsb (String.eqb k) l.

(** The destinations of the writes of a trace, in order. *)
Fixpoint writes (t : list event) : list path :=
  match t with
  | [] => []
  | WriteText p _ :: t' => p :: writes t'
  | _ :: t' => writes t'
  end.

(** The files a trace writes, in order: the destinations of the
    [write_text] calls and the document docutils writes. *)
Fixpoint written_files (t : list event) : list path :=
  match t with
  | [] => []
  | WriteText p _ :: t' => p :: written_files t'
  | PublishFile _ dst :: t' => dst :: written_files t'
  | _ :: t' => written_files t'
  end.

(** Whether a trace hands a document to docutils. *)
Definition publishes (t : list event) : bool :=
  existsb (fun e => match e with PublishFile _ _ => true | _ => false end) t.

(** A path component other than [..]. *)
Definition plain_part (c : string) : bool := negb (String.eqb c "..").

(** A trace of warnings and nothing else. *)
Definition quiet (t : list event) : Prop :=
  Forall (fun e => match e with Warn _ => True | _ => False end) t.

(** Whether a pattern matches at some position of a text. *)
Fixpoint matches_somewhere (p : Re.pattern) (s : string) : bool :=
  match Re.match_here p s with
  | Some _ => true
  | None =>
      match s with
      | EmptyString => false
      | String _ s' => matches_somewhere p s'
      end
  end.

(** A rule that [re.sub] accepts and whose pattern occurs nowhere in
    the text [s]. *)
Definition unmatched_rule (s : string) (rule : string * yaml) : Prop :=
  exists (p : Re.pattern) (r : string),
    Re.compile (fst rule) = Ok p
    /\ snd rule = YStr r
    /\ Re.has_backslash r = false
    /\ matches_somewhere p s = false.

(** ** A concrete world for the examples *)

Module Demo.

(** [str(v)] of a cell; only scalars occur in the examples. *)
Definition cell_text (v : yaml) : string :=
  match py_str v with
  | Ok s => s
  | Raise _ => ""
  end.

Definition cell_width (v : yaml) : nat :=
  list_max (map String.length (split_lines (cell_text v))).

Definition pad (s : string) (width : nat) : string :=
  s ++ repeat_char " " (width - String.length s).

Definition hrule (wa wb : nat) : string :=
  "+" ++ repeat_char "-" (wa + 2) ++ "+" ++ repeat_char "-" (wb + 2) ++ "+".

(** The lines of one row; a shorter cell is filled up with empty lines. *)
Fixpoint row_lines (wa wb : nat) (la lb : list string) (n : nat) : list string :=
  match n with
  | O => []
  | S n' =>
      ("| " ++ pad (hd "" la) wa ++ " | " ++ pad (hd "" lb) wb ++ " |")
        :: row_lines wa wb (tl la) (tl lb) n'
  end.

Definition row_text (wa wb : nat) (row : yaml * yaml) : list string :=
  let la := split_lines (cell_text (fst row)) in
  let lb := split_lines (cell_text (snd row)) in
  (row_lines wa wb la lb (Nat.max (List.length la) (List.length lb))
     ++ [hrule wa wb])%list.

(** The layout prettytable gives a header-less two-column table of
    printable ASCII cells with rules between all rows. *)
Definition box_table (rows : list (yaml * yaml)) : string :=
  let wa := list_max (map (fun r => cell_width (fst r)) rows) in
  let wb := list_max (map (fun r => cell_width (snd r)) rows) in
  String.concat nl (hrule wa wb :: flat_map (row_text wa wb) rows).

Definition cwd : list string := ["home"; "author"].

Definition docs (n : string) : path := Path Slash ["home"; "author"; "docs"; n].

Definition no_macros : yaml := YMap [("everywhere", YMap [])].

(** The files of the example, by absolute path.  Root documents: one
    with includes, one with an include that is not a YAML file, one
    with an empty include list and one without an include list; and the
    files they name. *)
Definition files (p : path) : result yaml :=
  if path_eqb p (docs "root.yaml") then
    Ok (YMap [("include", YSeq [YStr "../secret.yaml"; YStr "extra.yaml"]);
              ("macros", no_macros);
              ("sections", YSeq []);
              ("t1", YMap [("k1", YStr "v1")])])
  else if path_eqb p (docs "extra.yaml") then
    Ok (YMap [("t2", YMap [("k2", YStr "v2")])])
  else if path_eqb p (docs "notes.yaml") then
    Ok (YMap [("include", YSeq [YStr "extra.txt"]);
              ("macros", no_macros);
              ("sections", YSeq [])])
  else if path_eqb p (docs "extra.txt") then
    Ok (YMap [("t", YMap [("k", YStr "v")])])
  else if path_eqb p (docs "empty.yaml") then
    Ok (YMap [("include", YSeq []);
              ("macros", no_macros);
              ("sections", YSeq []);
              ("t1", YMap [("k1", YStr "v1")])])
  else if path_eqb p (docs "plain.yaml") then
    Ok (YMap [("macros", no_macros);
              ("sections", YSeq []);
              ("t1", YMap [("k1", YStr "v1")])])
  else if path_eqb p (Path Slash ["home"; "author"; "secret.yaml"]) then
    Ok (YMap [("password", YMap [("root", YStr "hunter2")])])
  else Raise OSError.

(** A file system without symbolic links. *)
Definition realpath (p : path) : result path := resolve cwd p.

(** [yaml.safe_load(open(p))]: a relative path is opened from the
    working directory. *)
Definition open_yaml (p : path) : result yaml :=
  (q <- realpath p ;; files q)%result.

(** The same file system with one symbolic link added: docs/link.yaml
    points to ../secret.yaml. *)
Definition realpath_with_link (p : path) : result path :=
  (q <- realpath p ;;
   if path_eqb q (docs "link.yaml")
   then Ok (Path Slash ["home"; "author"; "secret.yaml"]) else Ok q)%result.

Definition disk_ok (e : event) : bool := false.

Definition out : path := of_string "build".

End Demo.

(** ** Properties *)

(** *** Dictionaries *)

Lemma dict_set_same {V} (k : string) (v : V) (d : dict V) :
  dict_get k d = Some v -> dict_set k v d = d.
Proof.
  induction d as [|[k' v'] d IH]; simpl; [discriminate|].
  destruct (String.eqb k k') eqn:E.
  - intros H. injection H as ->. reflexivity.
  - intros H. now rewrite IH.
Qed.

Lemma dict_get_in {V} (k : string) (v : V) (d : dict V) :
  wf_dict d -> In (k, v) d -> dict_get k d = Some v.
Proof.
  unfold wf_dict, keys.
  induction d as [|[k' v'] d IH]; simpl; [tauto|].
  intros Hnd [Heq | Hin].
  - injection Heq as -> ->. now rewrite String.eqb_refl.
  - inversion Hnd as [|? ? Hnot Hnd']; subst.
    destruct (String.eqb_spec k k') as [->|_].
    + exfalso. apply Hnot. change k' with (fst (k', v)). now apply in_map.
    + now apply IH.
Qed.

Lemma dict_update_subset {V} (d e : dict V) :
  (forall k v, In (k, v) e -> dict_get k d = Some v) -> dict_update d e = d.
Proof.
  unfold dict_update. revert d.
  induction e as [|[k v] e IH]; simpl; intros d H; [reflexivity|].
  rewrite (dict_set_same k v d) by (apply H; now left).
  apply IH. intros k' v' Hin. apply H. now right.
Qed.

Lemma dict_update_self {V} (d : dict V) : wf_dict d -> dict_update d d = d.
Proof.
  intros Hwf. apply dict_update_subset. intros k v. now apply dict_get_in.
Qed.

Lemma dict_get_remove_other {V} (k k' : string) (d : dict V) :
  k <> k' -> dict_get k (dict_remove k' d) = dict_get k d.
Proof.
  intros Hne. induction d as [|[k0 v0] d IH]; simpl; [reflexivity|].
  destruct (String.eqb_spec k' k0) as [->|Hk0]; simpl.
  - destruct (String.eqb_spec k k0); [contradiction|exact IH].
  - destruct (String.eqb k k0); [reflexivity|exact IH].
Qed.

(** *** MacroResolver *)

Lemma rbind_assoc {A B C} (r : result A) (f : A -> result B) (g : B -> result C) :
  rbind (rbind r f) g = rbind r (fun a => rbind (f a) g).
Proof. now destruct r. Qed.

Lemma apply_rules_app (rules1 rules2 : dict yaml) (content : yaml) :
  apply_rules (rules1 ++ rules2)%list content
  = rbind (apply_rules rules1 content) (apply_rules rules2).
Proof.
  revert content.
  induction rules1 as [|[find replace] rules1 IH]; simpl; intros content.
  - reflexivity.
  - rewrite rbind_assoc. destruct (Re.sub find replace content); simpl; auto.
Qed.

(** The rule set of a scope, for a MacroSet given as a mapping. *)
Lemma macros_to_process_overlay (m ev : dict yaml) (section : string) :
  dict_get "everywhere" m = Some (YMap ev) ->
  macros_to_process (YMap m) section
  = match dict_get section m with
    | None => Ok ev
    | Some (YMap sc) => Ok (dict_update ev sc)
    | Some _ => Raise TypeError
    end.
Proof.
  intros Hev. unfold macros_to_process. simpl. rewrite Hev. simpl.
  destruct (dict_get section m) as [[]|]; reflexivity.
Qed.

(** C1: macro substitution runs through the merged rule set (the
    "everywhere" rules overlaid by the rules of the scope) in the order
    of the merged mapping, and every rule works on the text the rules
    before it produced: with the rules a->b, b->c the text "a" becomes
    "c". *)
Theorem macro_substitute_sequential :
  (forall (m ev : dict yaml) (section : string) (content : yaml)
          (rules1 rules2 : dict yaml) (find : string) (replace : yaml),
      dict_get "everywhere" m = Some (YMap ev) ->
      match dict_get section m with
      | None => Ok ev
      | Some (YMap sc) => Ok (dict_update ev sc)
      | Some _ => Raise TypeError
      end = Ok (rules1 ++ (find, replace) :: rules2)%list ->
      macro_substitute (YMap m) content section
      = (before <- apply_rules rules1 content ;;
         after <- Re.sub find replace before ;;
         apply_rules rules2 after)%result)
  /\ (forall scope : string,
         macro_substitute
           (YMap [("everywhere", YMap [("a", YStr "b"); ("b", YStr "c")])])
           (YStr "a") scope
         = Ok (YStr "c")).
Proof.
  split.
  - intros m ev section content rules1 rules2 find replace Hev Hrules.
    unfold macro_substitute.
    rewrite (macros_to_process_overlay m ev section Hev), Hrules. simpl.
    rewrite apply_rules_app. reflexivity.
  - intros scope. unfold macro_substitute, macros_to_process. simpl.
    destruct (String.eqb scope "everywhere"); vm_compute; reflexivity.
Qed.

(** C9: with a MacroSet that holds the "everywhere" rules and nothing
    else, the result of a substitution is the same for every scope. *)
Theorem substitute_scope_independent :
  forall (ev : dict yaml) (text : yaml) (scope1 scope2 : string),
    wf_dict ev ->
    macro_substitute (YMap [("everywhere", YMap ev)]) text scope1
    = macro_substitute (YMap [("everywhere", YMap ev)]) text scope2.
Proof.
  intros ev text scope1 scope2 Hwf.
  assert (H : forall scope,
             macro_substitute (YMap [("everywhere", YMap ev)]) text scope
             = apply_rules ev text).
  { intros scope. unfold macro_substitute.
    rewrite (macros_to_process_overlay _ ev scope) by reflexivity.
    simpl. destruct (String.eqb scope "everywhere"); simpl.
    - now rewrite dict_update_self.
    - reflexivity. }
  now rewrite !H.
Qed.

(** *** The order of strings

    [a < b] on Python strings is [String.ltb]: lexicographic by code
    point. *)

Lemma ascii_compare_lt_trans (a b c : ascii) :
  Ascii.compare a b = Lt -> Ascii.compare b c = Lt -> Ascii.compare a c = Lt.
Proof.
  unfold Ascii.compare. rewrite !N.compare_lt_iff. apply N.lt_trans.
Qed.

Lemma ascii_compare_refl (a : ascii) : Ascii.compare a a = Eq.
Proof. unfold Ascii.compare. apply N.compare_refl. Qed.

Lemma string_compare_refl (s : string) : String.compare s s = Eq.
Proof.
  induction s as [|c s IH]; simpl; [reflexivity|].
  now rewrite ascii_compare_refl.
Qed.

Lemma string_compare_lt_trans (s1 s2 s3 : string) :
  String.compare s1 s2 = Lt -> String.compare s2 s3 = Lt ->
  String.compare s1 s3 = Lt.
Proof.
  revert s2 s3.
  induction s1 as [|a s1 IH]; intros [|b s2] [|c s3]; simpl;
    try discriminate; try reflexivity.
  destruct (Ascii.compare a b) eqn:Eab; try discriminate;
    destruct (Ascii.compare b c) eqn:Ebc; try discriminate; intros H1 H2.
  - apply Ascii.compare_eq_iff in Eab, Ebc. subst.
    rewrite ascii_compare_refl. now apply (IH s2).
  - apply Ascii.compare_eq_iff in Eab. subst. now rewrite Ebc.
  - apply Ascii.compare_eq_iff in Ebc. subst. now rewrite Eab.
  - now rewrite (ascii_compare_lt_trans a b c).
Qed.

Lemma string_leb_cases (a b : string) :
  String.leb a b = true <-> String.compare a b = Lt \/ a = b.
Proof.
  unfold String.leb. split.
  - destruct (String.compare a b) eqn:E; try discriminate; intros _.
    + right. now apply String.compare_eq_iff.
    + now left.
  - intros [-> | ->]; [reflexivity|]. now rewrite string_compare_refl.
Qed.

Lemma string_leb_trans (a b c : string) :
  String.leb a b = true -> String.leb b c = true -> String.leb a c = true.
Proof.
  rewrite !string_leb_cases.
  intros [Hab | ->] [Hbc | ->]; auto.
  left. now apply (string_compare_lt_trans a b c).
Qed.

Lemma string_ltb_leb (a b : string) :
  String.ltb a b = true -> String.leb a b = true.
Proof.
  unfold String.ltb, String.leb. now destruct (String.compare a b).
Qed.

Lemma string_not_ltb_leb (a b : string) :
  String.ltb a b = false -> String.leb b a = true.
Proof.
  unfold String.ltb, String.leb. rewrite (String.compare_antisym b a).
  now destruct (String.compare a b).
Qed.

Lemma string_ltb_irrefl (a : string) : String.ltb a a = false.
Proof. unfold String.ltb. now rewrite string_compare_refl. Qed.

(** *** The stable sort *)

Lemma Forall_perm {A} (P : A -> Prop) (l l' : list A) :
  Permutation l l' -> Forall P l' -> Forall P l.
Proof.
  intros Hp Hall. eapply Permutation_Forall; [symmetry; exact Hp|exact Hall].
Qed.

Lemma insert_perm (x : decorated) (l : list decorated) :
  Permutation (insert x l) (x :: l).
Proof.
  induction l as [|y l IH]; simpl; [reflexivity|].
  destruct (String.ltb (fst y) (fst x)); [|reflexivity].
  rewrite IH. apply perm_swap.
Qed.

Lemma sort_decorated_perm (l : list decorated) :
  Permutation (sort_decorated l) l.
Proof.
  induction l as [|x l IH]; simpl; [reflexivity|].
  rewrite insert_perm. now constructor.
Qed.

Lemma insert_sorted (x : decorated) (l : list decorated) :
  StronglySorted key_le l -> StronglySorted key_le (insert x l).
Proof.
  induction 1 as [|y l Hs IH Hall]; simpl.
  - constructor; constructor.
  - destruct (String.ltb (fst y) (fst x)) eqn:E.
    + constructor; [exact IH|].
      apply (Forall_perm _ _ _ (insert_perm x l)).
      constructor; [now apply string_ltb_leb|exact Hall].
    + apply string_not_ltb_leb in E.
      constructor.
      * now constructor.
      * constructor; [exact E|].
        eapply Forall_impl; [|exact Hall].
        intros z Hz. unfold key_le in *. now apply (string_leb_trans _ (fst y)).
Qed.

Lemma sort_decorated_sorted (l : list decorated) :
  StronglySorted key_le (sort_decorated l).
Proof.
  induction l as [|x l IH]; simpl; [constructor|].
  now apply insert_sorted.
Qed.

(** Stability: elements with one sort key keep their order. *)
Lemma insert_same_key (sk : string) (x : decorated) (l : list decorated) :
  filter (fun y => String.eqb (fst y) sk) (insert x l)
  = filter (fun y => String.eqb (fst y) sk) (x :: l).
Proof.
  induction l as [|y l IH]; [reflexivity|].
  simpl insert. destruct (String.ltb (fst y) (fst x)) eqn:E; [|reflexivity].
  simpl in *. rewrite IH.
  destruct (String.eqb_spec (fst x) sk) as [Hx|Hx];
    destruct (String.eqb_spec (fst y) sk) as [Hy|Hy]; try reflexivity.
  rewrite Hx, Hy, string_ltb_irrefl in E. discriminate.
Qed.

Lemma sort_decorated_stable (sk : string) (l : list decorated) :
  filter (fun y => String.eqb (fst y) sk) (sort_decorated l)
  = filter (fun y => String.eqb (fst y) sk) l.
Proof.
  induction l as [|x l IH]; [reflexivity|].
  simpl sort_decorated. rewrite insert_same_key. simpl. now rewrite IH.
Qed.

(** The sort seen from the undecorated elements. *)
Section SortBy.
Variable f : string -> string.

Lemma decorated_inv (l : list string) :
  Forall (fun p => fst p = f (snd p)) (sort_decorated (decorate f l)).
Proof.
  apply (Forall_perm _ _ _ (sort_decorated_perm (decorate f l))).
  unfold decorate. rewrite Forall_map. apply Forall_forall. reflexivity.
Qed.

Lemma sort_by_perm (l : list string) : Permutation (sort_by f l) l.
Proof.
  unfold sort_by. rewrite sort_decorated_perm.
  unfold decorate. rewrite map_map. simpl. now rewrite map_id.
Qed.

Lemma sorted_undecorate (dl : list decorated) :
  Forall (fun p => fst p = f (snd p)) dl ->
  StronglySorted key_le dl ->
  StronglySorted (fun a b => String.leb (f a) (f b) = true) (map snd dl).
Proof.
  intros Hinv Hs. induction Hs as [|p dl Hs IH Hall]; simpl; [constructor|].
  inversion Hinv as [|? ? Hp Hinv']; subst.
  constructor; [now apply IH|].
  rewrite Forall_map. rewrite Forall_forall in *.
  intros q Hq. unfold key_le in Hall.
  rewrite <- Hp, <- (Hinv' q Hq). now apply Hall.
Qed.

Lemma sort_by_sorted (l : list string) :
  StronglySorted (fun a b => String.leb (f a) (f b) = true) (sort_by f l).
Proof.
  apply sorted_undecorate; [apply decorated_inv|apply sort_decorated_sorted].
Qed.

Lemma filter_undecorate (sk : string) (dl : list decorated) :
  Forall (fun p => fst p = f (snd p)) dl ->
  filter (fun k => String.eqb (f k) sk) (map snd dl)
  = map snd (filter (fun y => String.eqb (fst y) sk) dl).
Proof.
  induction 1 as [|p dl Hp _ IH]; simpl; [reflexivity|].
  rewrite <- Hp. destruct (String.eqb (fst p) sk); simpl; now rewrite IH.
Qed.

Lemma sort_by_stable (sk : string) (l : list string) :
  filter (fun k => String.eqb (f k) sk) (sort_by f l)
  = filter (fun k => String.eqb (f k) sk) l.
Proof.
  unfold sort_by.
  rewrite (filter_undecorate sk _ (decorated_inv l)), sort_decorated_stable.
  unfold decorate. induction l as [|k l IH]; simpl; [reflexivity|].
  destruct (String.eqb (f k) sk); simpl; now rewrite IH.
Qed.
End SortBy.

(** *** The sort key *)

Lemma star_run (cs : Re.charset) (s : string) :
  Re.star cs (fun _ => Some 0) s = Some (run cs s).
Proof.
  induction s as [|c s IH]; simpl; [reflexivity|].
  destruct (cs c); [now rewrite IH|reflexivity].
Qed.

Lemma sub_scan_plus_empty (cs : Re.charset) (s : string) :
  forall skip, skip <= run cs s ->
    Re.sub_scan [Re.Item cs Re.Plus] "" skip s
    = str_filter (fun c => negb (cs c)) s.
Proof.
  induction s as [|c s IH]; intros skip Hskip.
  - simpl in Hskip. assert (skip = 0) by lia. subst. reflexivity.
  - destruct skip as [|skip].
    + simpl. destruct (cs c) eqn:Ec; simpl.
      * rewrite star_run. simpl. apply IH. lia.
      * f_equal. apply IH. lia.
    + simpl in *. destruct (cs c); [|lia]. simpl. apply IH. lia.
Qed.

Lemma str_filter_ext (f g : ascii -> bool) (s : string) :
  (forall c, f c = g c) -> str_filter f s = str_filter g s.
Proof.
  intros H. induction s as [|c s IH]; simpl; [reflexivity|].
  now rewrite H, IH.
Qed.

Lemma underscore_not_alnum : Re.is_alnum "_"%char = false.
Proof. reflexivity. Qed.

Lemma sort_key_strip (key : string) : sort_key key = Ok (strip_non_alnum key).
Proof.
  unfold sort_key, Re.sub.
  change (Re.compile "[\W_]+")
    with (Ok [Re.Item (Re.union (Re.union Re.nothing (Re.compl Re.is_word))
                                (Re.single "_")) Re.Plus]).
  simpl. rewrite sub_scan_plus_empty by lia.
  f_equal. apply str_filter_ext. intros c.
  unfold Re.union, Re.nothing, Re.compl, Re.is_word, Re.single.
  rewrite (Ascii.eqb_sym "_"%char c), orb_false_l.
  destruct (Ascii.eqb_spec c "_"%char) as [->|_].
  - now rewrite underscore_not_alnum.
  - now rewrite !orb_false_r, negb_involutive.
Qed.

Lemma sorted_keys_sort_by (l : list string) :
  sorted_keys l = Ok (sort_by strip_non_alnum l).
Proof.
  unfold sorted_keys, sort_by.
  assert (H : map_result (fun k => (sk <- sort_key k ;; Ok (sk, k))%result) l
              = Ok (decorate strip_non_alnum l)).
  { induction l as [|k l IH]; [reflexivity|].
    cbn [map_result]. rewrite sort_key_strip. cbn [rbind].
    rewrite IH. reflexivity. }
  now rewrite H.
Qed.

(** *** TableRenderer *)

Lemma add_rows_map_result (macros : yaml) (d : dict yaml) (ks : list string) :
  add_rows macros d ks = map_result (row_of macros d) (filter not_reserved ks).
Proof.
  induction ks as [|k ks IH]; [reflexivity|].
  cbn [add_rows filter]. unfold not_reserved at 1.
  destruct (String.eqb k re_sort); cbn [negb]; [exact IH|].
  cbn [map_result]. unfold row_of at 1. rewrite !rbind_assoc.
  destruct (macro_substitute macros (YStr k) "left"); [|reflexivity].
  cbn [rbind]. rewrite rbind_assoc.
  destruct (macro_substitute macros _ "right"); [|reflexivity].
  cbn [rbind]. now rewrite IH.
Qed.

Lemma map_result_items (macros : yaml) (d d' : dict yaml) :
  (forall kv, In kv d' -> dict_get (fst kv) d = Some (snd kv)) ->
  map_result (row_of macros d) (filter not_reserved (keys d'))
  = map_result (row_of_item macros)
      (filter (fun kv => not_reserved (fst kv)) d').
Proof.
  induction d' as [|[k v] d' IH]; intros H; [reflexivity|].
  cbn [keys map filter fst].
  assert (IH' := IH (fun kv Hin => H kv (or_intror Hin))).
  unfold keys in IH'.
  destruct (not_reserved k); [|exact IH'].
  cbn [map_result]. rewrite IH'.
  pose proof (H (k, v) (or_introl eq_refl)) as Hk. cbn [fst snd] in Hk.
  unfold row_of, row_of_item. cbn [fst snd].
  now rewrite Hk.
Qed.

Lemma Permutation_filter {A} (p : A -> bool) (l l' : list A) :
  Permutation l l' -> Permutation (filter p l) (filter p l').
Proof.
  induction 1 as [|x l l' _ IH|x y l|l l' l'' _ IH1 _ IH2]; simpl.
  - constructor.
  - destruct (p x); [now constructor|exact IH].
  - destruct (p x), (p y); try reflexivity. apply perm_swap.
  - now transitivity (filter p l').
Qed.

Lemma StronglySorted_filter {A} (R : A -> A -> Prop) (p : A -> bool) (l : list A) :
  StronglySorted R l -> StronglySorted R (filter p l).
Proof.
  induction 1 as [|x l _ IH Hall]; simpl; [constructor|].
  destruct (p x); [|exact IH].
  constructor; [exact IH|].
  rewrite Forall_forall in *. intros y Hy.
  apply filter_In in Hy. now apply Hall.
Qed.

Lemma filter_comm {A} (p q : A -> bool) (l : list A) :
  filter p (filter q l) = filter q (filter p l).
Proof.
  induction l as [|x l IH]; simpl; [reflexivity|].
  destruct (p x) eqn:Ep, (q x) eqn:Eq; simpl; rewrite ?Ep, ?Eq, IH; reflexivity.
Qed.

Section TableProperties.

Variable pt_get_string : list (yaml * yaml) -> string.

(** C10: an empty mapping is rendered like a missing definition, as
    the placeholder that names the table, not as an empty table. *)
Theorem empty_mapping_renders_placeholder :
  forall (macros : yaml) (name : string),
    get_rst_table pt_get_string macros name (YMap [])
    = Ok (nl ++ "**Table <" ++ name ++ "> has no entries**" ++ nl)
    /\ get_rst_table pt_get_string macros name (YMap [])
       = get_rst_table pt_get_string macros name YNull.
Proof. intros macros name. split; reflexivity. Qed.

(** C8: when the "__re-sort__" entry of a table definition is falsy
    or absent, the rows handed to the renderer are, in the insertion
    order of the mapping, one row for every entry but "__re-sort__":
    the key substituted in scope "left", the value in scope "right". *)
Theorem unsorted_rows_in_insertion_order :
  forall (macros : yaml) (name : string) (d : dict yaml),
    wf_dict d ->
    truthy (re_sort_flag d) = false ->
    table_rows macros d
    = map_result (row_of_item macros)
        (filter (fun kv => negb (String.eqb (fst kv) re_sort)) d)
    /\ (d <> [] ->
        get_rst_table pt_get_string macros name (YMap d)
        = (rows <- table_rows macros d ;;
           Ok (indent_rows (pt_get_string rows)))%result).
Proof.
  intros macros name d Hwf Hflag. split.
  - unfold table_rows, row_keys. fold (re_sort_flag d). rewrite Hflag.
    cbn [rbind]. rewrite add_rows_map_result.
    apply map_result_items. intros [k v] Hin. now apply dict_get_in.
  - intros Hne. unfold get_rst_table.
    destruct d; [contradiction|reflexivity].
Qed.

(** C2, amended: when the "__re-sort__" entry is truthy, the sort key
    of a row is its raw key without every character that is not a
    letter or a digit, so the underscore is removed as well; the rows
    are the entries other than "__re-sort__" in ascending order of
    that key (by code point, case-sensitive), entries with one sort
    key in insertion order.  The keys "B-2", "a_1", "A 0" are rendered
    in the order "A 0", "B-2", "a_1". *)
Theorem sorted_rows_by_alnum_key :
  (forall key : string, sort_key key = Ok (strip_non_alnum key))
  /\ (forall (macros : yaml) (d : dict yaml),
         truthy (re_sort_flag d) = true ->
         exists ks : list string,
           Permutation ks (filter not_reserved (keys d))
           /\ StronglySorted
                (fun a b => String.leb (strip_non_alnum a) (strip_non_alnum b) = true)
                ks
           /\ (forall sk : string,
                  filter (fun k => String.eqb (strip_non_alnum k) sk) ks
                  = filter (fun k => String.eqb (strip_non_alnum k) sk)
                      (filter not_reserved (keys d)))
           /\ table_rows macros d = map_result (row_of macros d) ks)
  /\ table_rows (YMap [("everywhere", YMap [])])
       [(re_sort, YBool true);
        ("B-2", YStr "x"); ("a_1", YStr "y"); ("A 0", YStr "z")]
     = Ok [(YStr "A 0", YStr "z"); (YStr "B-2", YStr "x"); (YStr "a_1", YStr "y")].
Proof.
  split; [exact sort_key_strip|]. split; [|vm_compute; reflexivity].
  intros macros d Hflag.
  exists (filter not_reserved (sort_by strip_non_alnum (keys d))).
  repeat split.
  - apply Permutation_filter, sort_by_perm.
  - apply StronglySorted_filter, sort_by_sorted.
  - intros sk. now rewrite filter_comm, sort_by_stable, filter_comm.
  - unfold table_rows, row_keys. fold (re_sort_flag d). rewrite Hflag.
    rewrite sorted_keys_sort_by. cbn [rbind]. apply add_rows_map_result.
Qed.

End TableProperties.

(** C2 as stated fails: the underscore does not survive in the sort
    key, and this changes the order of rows. *)
Lemma sort_key_loses_underscore :
  sort_key "a_1" = Ok "a1"
  /\ sort_key "a_1" <> Ok "a_1"
  /\ table_rows (YMap [("everywhere", YMap [])])
       [(re_sort, YBool true); ("a_z", YStr "1"); ("ab", YStr "2")]
     = Ok [(YStr "ab", YStr "2"); (YStr "a_z", YStr "1")]
  /\ String.ltb (spec_sort_key "a_z") (spec_sort_key "ab") = true.
Proof.
  repeat split; try (vm_compute; reflexivity).
  vm_compute. discriminate.
Qed.

(** *** IndexComposer *)

Lemma append_assoc (a b c : string) : (a ++ b) ++ c = a ++ b ++ c.
Proof. induction a as [|x a IH]; simpl; [reflexivity|now rewrite IH]. Qed.

Lemma split_lines_not_nil (s : string) : split_lines s <> [].
Proof.
  unfold split_lines. induction s as [|c s IH]; simpl; [discriminate|].
  destruct (Ascii.eqb c newline); [discriminate|].
  destruct (split_on newline s); discriminate.
Qed.

Lemma list_max_attained (l : list nat) : l <> [] -> In (list_max l) l.
Proof.
  induction l as [|n l IH]; [contradiction|]. intros _.
  change (list_max (n :: l)) with (Nat.max n (list_max l)).
  destruct l as [|m l].
  - left. simpl. lia.
  - destruct (Nat.max_spec n (list_max (m :: l))) as [[_ ->]|[_ ->]].
    + right. apply IH. discriminate.
    + now left.
Qed.

Lemma repeat_char_length (c : ascii) (n : nat) : String.length (repeat_char c n) = n.
Proof. induction n; simpl; congruence. Qed.

Lemma join_split_lines (s : string) : String.concat nl (split_lines s) = s.
Proof.
  unfold split_lines. induction s as [|c s IH]; [reflexivity|].
  cbn [split_on].
  destruct (split_on newline s) as [|l ls] eqn:E;
    [now apply (split_lines_not_nil s) in E|].
  destruct (Ascii.eqb_spec c newline) as [->|_].
  - change (String.concat nl ("" :: l :: ls))
      with (String newline (String.concat nl (l :: ls))).
    now rewrite IH.
  - destruct ls as [|x ls].
    + cbn [String.concat] in *. now rewrite IH.
    + change (String.concat nl (String c l :: x :: ls))
        with (String c (String.concat nl (l :: x :: ls))).
      now rewrite IH.
Qed.

Lemma split_lines_newline_free (s : string) :
  Forall (fun line => contains_char newline line = false) (split_lines s).
Proof.
  unfold split_lines. induction s as [|c s IH]; cbn [split_on].
  - repeat constructor.
  - destruct (Ascii.eqb c newline) eqn:E.
    + constructor; [reflexivity|exact IH].
    + destruct (split_on newline s) as [|l ls]; [repeat constructor; simpl; now rewrite E|].
      inversion IH as [|? ? Hl Hls]; subst.
      constructor; [|exact Hls]. cbn [contains_char]. now rewrite E, Hl.
Qed.

(** Reading a text character by character finds the longest of the
    lines [split("\n")] gives. *)
Lemma longest_line_split (s : string) (cur : nat) :
  longest_line cur s
  = match split_lines s with
    | [] => cur
    | l :: ls => Nat.max (cur + String.length l) (list_max (map String.length ls))
    end.
Proof.
  unfold split_lines. revert cur. induction s as [|c s IH]; intros cur;
    cbn [longest_line split_on].
  - simpl. lia.
  - destruct (Ascii.eqb c newline).
    + rewrite IH. destruct (split_on newline s) as [|l ls];
        unfold list_max; cbn -[Nat.max]; lia.
    + rewrite IH. destruct (split_on newline s) as [|l ls];
        unfold list_max; cbn -[Nat.max]; lia.
Qed.

Lemma title_width_split (title : string) :
  list_max (map String.length (split_lines title)) = title_width title.
Proof.
  unfold title_width. rewrite longest_line_split.
  destruct (split_lines title) as [|l ls] eqn:E;
    [now apply split_lines_not_nil in E|reflexivity].
Qed.

Lemma title_width_longest (title : string) :
  Forall (fun line => String.length line <= title_width title) (split_lines title)
  /\ Exists (fun line => String.length line = title_width title) (split_lines title).
Proof.
  rewrite <- title_width_split. split.
  - rewrite Forall_forall. intros line Hin.
    assert (H : Forall (fun k => k <= list_max (map String.length (split_lines title)))
                  (map String.length (split_lines title)))
      by now apply list_max_le.
    rewrite Forall_forall in H. apply H. now apply in_map.
  - assert (Hne : map String.length (split_lines title) <> []).
    { intros H. apply map_eq_nil in H. now apply split_lines_not_nil in H. }
    apply list_max_attained in Hne. apply in_map_iff in Hne.
    destruct Hne as [line [Hlen Hin]]. apply Exists_exists. now exists line.
Qed.

Lemma yaml_get_field (s : dict yaml) (k : string) (default : yaml) :
  yaml_get (YMap s) k default = Ok (field s k default).
Proof. unfold yaml_get, field. now destruct (dict_get k s). Qed.

(** C6: a section with title and contents adds to the index: when
    hidden, its substituted contents and nothing else; otherwise a blank
    line, the anchor marker and a blank line if there is an anchor, a
    rule of dashes as long as the longest line of the substituted title,
    the title, the same rule, a blank line, and the contents.  The
    lines of the title are the pieces between its line breaks.  The
    section T/C gives "C" when hidden and the framed heading when not; a
    title of the lines "ab" and "cdef" gets rules of four dashes. *)
Theorem index_section_fragment :
  (forall (macros : yaml) (output : string) (s : dict yaml)
          (title contents : yaml) (t' c' a : string),
      dict_get "title" s = Some title -> is_none title = false ->
      dict_get "contents" s = Some contents -> is_none contents = false ->
      macro_substitute macros title "title" = Ok (YStr t') ->
      macro_substitute macros contents "contents" = Ok (YStr c') ->
      (truthy (field s "hidden" (YBool false)) = false ->
       truthy (field s "anchor" YNull) = true ->
       py_str (field s "anchor" YNull) = Ok a) ->
      index_section macros output (YMap s)
      = ([], Ok (output
                 ++ fragment (truthy (field s "hidden" (YBool false)))
                      (anchor_text (field s "anchor" YNull) a) t' c'))
      /\ String.length (rule (title_width t')) = title_width t'
      /\ exists lines : list string,
           String.concat nl lines = t'
           /\ Forall (fun line => contains_char newline line = false) lines
           /\ Forall (fun line => String.length line <= title_width t') lines
           /\ Exists (fun line => String.length line = title_width t') lines)
  /\ get_index_rst
       {| macros := YMap [("everywhere", YMap [])];
          sections := YSeq [YMap [("title", YStr "T"); ("contents", YStr "C");
                                  ("hidden", YBool true)]];
          tables := [] |}
     = ([], Ok "C")
  /\ get_index_rst
       {| macros := YMap [("everywhere", YMap [])];
          sections := YSeq [YMap [("title", YStr "T"); ("contents", YStr "C");
                                  ("hidden", YBool false)]];
          tables := [] |}
     = ([], Ok (nl ++ "-" ++ nl ++ "T" ++ nl ++ "-" ++ nl ++ nl ++ "C"))
  /\ get_index_rst
       {| macros := YMap [("everywhere", YMap [])];
          sections := YSeq [YMap [("title", YStr ("ab" ++ nl ++ "cdef"));
                                  ("anchor", YInt 7);
                                  ("contents", YStr "C")]];
          tables := [] |}
     = ([], Ok (nl ++ ".. _7:" ++ nl ++ nl
                ++ "----" ++ nl ++ "ab" ++ nl ++ "cdef" ++ nl ++ "----" ++ nl ++ nl
                ++ "C")).
Proof.
  split; [|repeat split; vm_compute; reflexivity].
  intros macros output s title contents t' c' a Ht Htn Hc Hcn Hst Hsc Ha.
  split; [|split; [apply repeat_char_length|]].
  - unfold index_section.
    rewrite (yaml_get_field s "anchor"), (yaml_get_field s "hidden").
    unfold yaml_get, lift. rewrite Ht, Hc. cbn [bind app].
    rewrite Htn, Hcn. cbn [orb]. rewrite Hst, Hsc. cbn [bind app str_split_lines].
    rewrite title_width_split. unfold anchor_text.
    destruct (truthy (field s "hidden" (YBool false))) eqn:Eh;
      cbn [negb bind app str_concat fragment]; [reflexivity|].
    unfold heading.
    destruct (truthy (field s "anchor" YNull)) eqn:Ea.
    + rewrite (Ha eq_refl eq_refl).
      cbn [rbind str_concat bind app anchor_block].
      rewrite ?append_assoc. cbn [append]. reflexivity.
    + cbn [rbind str_concat bind app anchor_block].
      rewrite ?append_assoc. cbn [append]. reflexivity.
  - exists (split_lines t'). split; [apply join_split_lines|].
    split; [apply split_lines_newline_free|]. apply title_width_longest.
Qed.

(** *** Paths *)

Lemma parts_eqb_refl (l : list string) : parts_eqb l l = true.
Proof.
  induction l as [|x l IH]; simpl; [reflexivity|].
  now rewrite String.eqb_refl, IH.
Qed.

Lemma path_eqb_refl (p : path) : path_eqb p p = true.
Proof.
  unfold path_eqb. rewrite parts_eqb_refl. now destruct (p_root p).
Qed.

Lemma normalize_snoc (l : list string) (c : string) :
  String.eqb c ".." = false -> normalize (l ++ [c]) = (normalize l ++ [c])%list.
Proof.
  intros H. unfold normalize. rewrite fold_left_app. simpl. now rewrite H.
Qed.

(** A directory is among the parents of every file directly in it. *)
Lemma in_parents_child (r : root) (l : list string) (c : string) :
  in_parents (Path r l) (Path r (l ++ [c])) = true.
Proof.
  unfold in_parents, parents. cbn [p_root p_parts].
  rewrite length_app, Nat.add_comm. cbn [List.length plus ancestors existsb].
  rewrite firstn_app, firstn_all, Nat.sub_diag. cbn [firstn].
  rewrite app_nil_r, path_eqb_refl. reflexivity.
Qed.

Lemma resolve_child (cwd : list string) (d : path) (c : string) :
  String.eqb c ".." = false ->
  in_parents (lexical cwd d)
             (lexical cwd (Path (p_root d) (p_parts d ++ [c]))) = true.
Proof.
  intros H. unfold lexical. cbn [p_root p_parts].
  destruct (p_root d).
  - rewrite app_assoc, normalize_snoc by exact H. apply in_parents_child.
  - rewrite normalize_snoc by exact H. apply in_parents_child.
  - rewrite normalize_snoc by exact H. apply in_parents_child.
Qed.

(** *** The effect monad *)

Lemma bind_snd {A B} (m : M A) (k : A -> M B) :
  snd (bind m k) = match snd m with
                   | Ok a => snd (k a)
                   | Raise e => Raise e
                   end.
Proof.
  destruct m as [t [a|e]]; simpl; [|reflexivity]. now destruct (k a).
Qed.

Lemma for_fold_app {A B} (body : B -> A -> M B) (l1 l2 : list A) (b : B) :
  snd (for_fold body (l1 ++ l2) b)
  = match snd (for_fold body l1 b) with
    | Ok b' => snd (for_fold body l2 b')
    | Raise e => Raise e
    end.
Proof.
  revert b. induction l1 as [|a l1 IH]; intros b; [reflexivity|].
  cbn [app for_fold]. rewrite !bind_snd.
  destruct (snd (body b a)); [apply IH|reflexivity].
Qed.

Lemma bind_lift_ok {A B} (a : A) (k : A -> M B) : bind (lift (Ok a)) k = k a.
Proof. unfold lift. simpl. now destruct (k a). Qed.

Section RunProperties.

Variable realpath : path -> result path.
Variable load_yaml : path -> result yaml.
Variable io_error : event -> bool.
Variable pt_get_string : list (yaml * yaml) -> string.

(** Without symbolic links the table named "index" never leaves the
    output directory. *)
Lemma index_table_inside (cwd : list string) (output_dir : path) :
  in_parents (lexical cwd output_dir)
             (lexical cwd (table_path output_dir "index")) = true.
Proof.
  change (table_path output_dir "index")
    with (Path (p_root output_dir) (p_parts output_dir ++ ["index.rst"])).
  now apply resolve_child.
Qed.

(** C7, amended: for a table other than the reserved "index": when its
    resolved destination is not inside the resolved output directory, a
    warning is logged and the directory is made and the table written
    all the same; when the destination is inside, the table is written
    without that warning.  The table named "index" is skipped with a
    warning of its own and not written, wherever its destination is. *)
Theorem escaping_table_warned_and_written :
  forall (macros : yaml) (output_dir : path) (table : string)
         (contents : yaml) (text : string) (resolved_dir resolved_path : path),
    let dest := table_path output_dir table in
    (table <> "index" ->
     realpath output_dir = Ok resolved_dir ->
     realpath dest = Ok resolved_path ->
     io_error (Mkdir (parent dest)) = false ->
     get_rst_table pt_get_string macros table contents = Ok text ->
     (in_parents resolved_dir resolved_path = false ->
      process_table realpath io_error pt_get_string macros output_dir table contents
      = ([Warn (table_escape_warning table); Mkdir (parent dest); WriteText dest text],
         if io_error (WriteText dest text) then Raise OSError else Ok tt))
     /\ (in_parents resolved_dir resolved_path = true ->
         process_table realpath io_error pt_get_string macros output_dir table contents
         = ([Mkdir (parent dest); WriteText dest text],
            if io_error (WriteText dest text) then Raise OSError else Ok tt)))
    /\ process_table realpath io_error pt_get_string macros output_dir "index" contents
       = ([Warn skip_index_warning], Ok tt).
Proof.
  intros macros output_dir table contents text resolved_dir resolved_path dest.
  split; [|reflexivity].
  intros Hne Hdir Hpath Hmk Hrender.
  unfold process_table. fold dest.
  destruct (String.eqb_spec table "index") as [->|_]; [contradiction|].
  rewrite Hdir, Hpath, !bind_lift_ok.
  split; intros Hin; rewrite Hin; unfold emit, lift; rewrite Hmk, Hrender;
    reflexivity.
Qed.

(** C4: an include entry whose resolved path is not inside the
    resolved directory of the root document is skipped with a warning:
    nothing is read, the warning is the last thing logged for the entry
    (after the one for a name that does not end in .yaml, if that
    applies), the namespace is left as it was, and the loop over the
    include list ends as it would without the entry. *)
Theorem escaping_include_skipped :
  forall (input_path : path) (i : string) (i_path root_dir : path),
    realpath (include_path input_path i) = Ok i_path ->
    realpath (parent input_path) = Ok root_dir ->
    in_parents root_dir i_path = false ->
    (forall input_data : dict yaml,
        include_one realpath load_yaml input_path input_data (YStr i)
        = (((if String.eqb (suffix i_path) ".yaml" then []
             else [Warn (not_yaml_warning i)])
            ++ [Warn (include_escape_warning i)])%list,
           Ok input_data))
    /\ (forall (before after : list yaml) (input_data : dict yaml),
           snd (for_fold (include_one realpath load_yaml input_path)
                         (before ++ YStr i :: after) input_data)
           = snd (for_fold (include_one realpath load_yaml input_path)
                           (before ++ after) input_data)).
Proof.
  intros input_path i i_path root_dir Hpath Hdir Hout.
  assert (Hone : forall input_data,
             include_one realpath load_yaml input_path input_data (YStr i)
             = (((if String.eqb (suffix i_path) ".yaml" then []
                  else [Warn (not_yaml_warning i)])
                 ++ [Warn (include_escape_warning i)])%list,
                Ok input_data)).
  { intros input_data. unfold include_one. rewrite Hpath, bind_lift_ok.
    destruct (String.eqb (suffix i_path) ".yaml"); cbn [negb warn ret bind];
      rewrite Hdir, bind_lift_ok, Hout; reflexivity. }
  split; [exact Hone|].
  intros before after input_data. rewrite !for_fold_app.
  destruct (snd (for_fold (include_one realpath load_yaml input_path) before
                          input_data)) as [d|e];
    [|reflexivity].
  cbn [for_fold]. rewrite bind_snd.
  rewrite (Hone d). reflexivity.
Qed.

(** C5, amended: a missing "include" key is fatal like a missing
    "macros" or "sections" key; a root document that parses to a
    mapping with "macros", "sections" and an empty "include" list is
    loaded without a fatal error, and without "include" it is not. *)
Theorem load_needs_include_macros_sections :
  forall (input_path : path) (d : dict yaml),
    load_yaml input_path = Ok (YMap d) ->
    (dict_get "include" d = None ->
     __init__ realpath load_yaml input_path = ([], Raise (KeyError "include")))
    /\ (dict_get "include" d = Some (YSeq []) ->
        __init__ realpath load_yaml input_path
        = ([], match dict_get "macros" d, dict_get "sections" d with
               | None, _ => Raise (KeyError "macros")
               | Some _, None => Raise (KeyError "sections")
               | Some m, Some s =>
                   Ok {| macros := m;
                         sections := s;
                         tables := dict_remove "sections"
                                     (dict_remove "macros"
                                        (dict_remove "include" d)) |}
               end)).
Proof.
  intros input_path d Hload. unfold __init__, lift, dict_pop.
  rewrite Hload. cbn [bind app].
  split; intros Hinc; rewrite Hinc; cbn [bind app iterate for_fold ret];
    [reflexivity|].
  rewrite (dict_get_remove_other "macros" "include") by discriminate.
  destruct (dict_get "macros" d) as [m|]; [|reflexivity].
  cbn [bind app].
  rewrite (dict_get_remove_other "sections" "macros") by discriminate.
  rewrite (dict_get_remove_other "sections" "include") by discriminate.
  destruct (dict_get "sections" d) as [s|]; reflexivity.
Qed.

(** An include that is not a YAML file is warned about and then read
    and merged like any other. *)
Lemma non_yaml_include_merged :
  forall (input_path : path) (input_data : dict yaml) (i : string)
         (i_path root_dir : path) (included : dict yaml),
    realpath (include_path input_path i) = Ok i_path ->
    realpath (parent input_path) = Ok root_dir ->
    String.eqb (suffix i_path) ".yaml" = false ->
    in_parents root_dir i_path = true ->
    load_yaml i_path = Ok (YMap included) ->
    include_one realpath load_yaml input_path input_data (YStr i)
    = ([Warn (not_yaml_warning i)],
       Ok (dict_update input_data
             (dict_of_list
                (map (fun kv => (stem i_path ++ "/" ++ fst kv, snd kv))
                     included)))).
Proof.
  intros input_path input_data i i_path root_dir included Hpath Hdir Hsuf Hin Hload.
  unfold include_one. rewrite Hpath, bind_lift_ok, Hsuf. cbn [negb warn bind].
  rewrite Hdir, bind_lift_ok, Hin. cbn [negb]. rewrite Hload. reflexivity.
Qed.

End RunProperties.

(** ** Further properties of the program *)

(** *** Dictionaries, continued *)

Lemma dict_get_set {V} (k k' : string) (v : V) (d : dict V) :
  dict_get k (dict_set k' v d)
  = if String.eqb k k' then Some v else dict_get k d.
Proof.
  induction d as [|[k0 v0] d IH]; simpl.
  - now destruct (String.eqb k k').
  - destruct (String.eqb_spec k' k0) as [->|Hne]; simpl.
    + now destruct (String.eqb k k0).
    + destruct (String.eqb_spec k k0) as [->|Hk].
      * destruct (String.eqb_spec k0 k'); [congruence|reflexivity].
      * exact IH.
Qed.

Lemma dict_get_none {V} (k : string) (d : dict V) :
  dict_get k d = None <-> ~ In k (keys d).
Proof.
  unfold keys. induction d as [|[k0 v0] d IH]; simpl; [tauto|].
  destruct (String.eqb_spec k k0) as [->|Hne].
  - split; [discriminate|]. intros H. exfalso. apply H. now left.
  - rewrite IH. split; [intros H [Heq|Hin]; [congruence|tauto]|tauto].
Qed.

Lemma has_key_in (k : string) (l : list string) : has_key k l = true <-> In k l.
Proof.
  unfold has_key. rewrite existsb_exists. split.
  - intros [x [Hin Heq]]. apply String.eqb_eq in Heq. now subst.
  - intros Hin. exists k. split; [exact Hin|apply String.eqb_refl].
Qed.

Lemma has_key_not_in (k : string) (l : list string) :
  has_key k l = false <-> ~ In k l.
Proof.
  rewrite <- has_key_in. now destruct (has_key k l).
Qed.

Lemma keys_dict_set {V} (k : string) (v : V) (d : dict V) :
  keys (dict_set k v d) = if has_key k (keys d) then keys d else (keys d ++ [k])%list.
Proof.
  unfold keys, has_key. induction d as [|[k0 v0] d IH]; simpl; [reflexivity|].
  destruct (String.eqb k k0) eqn:E; simpl; [reflexivity|].
  rewrite IH. now destruct (existsb (String.eqb k) (map fst d)).
Qed.

Lemma wf_dict_set {V} (k : string) (v : V) (d : dict V) :
  wf_dict d -> wf_dict (dict_set k v d).
Proof.
  unfold wf_dict. rewrite keys_dict_set. intros Hwf.
  destruct (has_key k (keys d)) eqn:E; [exact Hwf|].
  apply has_key_not_in in E.
  apply NoDup_app; [exact Hwf|repeat constructor; simpl; tauto|].
  intros x Hx [<-|[]]. contradiction.
Qed.

Lemma wf_dict_update {V} (d e : dict V) : wf_dict d -> wf_dict (dict_update d e).
Proof.
  unfold dict_update. revert d.
  induction e as [|[k v] e IH]; simpl; intros d Hwf; [exact Hwf|].
  apply IH. now apply wf_dict_set.
Qed.

Lemma keys_dict_remove {V} (k : string) (d : dict V) :
  keys (dict_remove k d) = filter (fun k' => negb (String.eqb k k')) (keys d).
Proof.
  unfold keys, dict_remove. induction d as [|[k0 v0] d IH]; simpl; [reflexivity|].
  destruct (String.eqb k k0); simpl; now rewrite IH.
Qed.

Lemma wf_dict_remove {V} (k : string) (d : dict V) :
  wf_dict d -> wf_dict (dict_remove k d).
Proof.
  unfold wf_dict. rewrite keys_dict_remove. apply NoDup_filter.
Qed.

Lemma dict_get_remove_same {V} (k : string) (d : dict V) :
  dict_get k (dict_remove k d) = None.
Proof.
  apply dict_get_none. rewrite keys_dict_remove. intros H.
  apply filter_In in H. destruct H as [_ H]. now rewrite String.eqb_refl in H.
Qed.

(** Lookup after [d.update(e)]: the entry of [e] if there is one. *)
Lemma dict_get_update {V} (k : string) (d e : dict V) :
  wf_dict e ->
  dict_get k (dict_update d e)
  = match dict_get k e with
    | Some v => Some v
    | None => dict_get k d
    end.
Proof.
  unfold dict_update, wf_dict, keys. revert d.
  induction e as [|[k0 v0] e IH]; simpl; intros d Hwf; [reflexivity|].
  inversion Hwf as [|? ? Hnot Hwf']; subst.
  rewrite IH by exact Hwf'. rewrite dict_get_set.
  destruct (String.eqb_spec k k0) as [->|_]; [|reflexivity].
  apply dict_get_none in Hnot. now rewrite Hnot.
Qed.

(** The key order after [d.update(e)]: the keys of [d], then the new
    keys of [e]. *)
Lemma keys_dict_update {V} (d e : dict V) :
  wf_dict e ->
  keys (dict_update d e)
  = (keys d ++ filter (fun k => negb (has_key k (keys d))) (keys e))%list.
Proof.
  unfold dict_update, wf_dict. revert d.
  induction e as [|[k v] e IH]; intros d Hwf.
  - simpl. now rewrite app_nil_r.
  - inversion Hwf as [|? ? Hnot Hwf']; subst.
    cbn [fold_left fst snd]. rewrite IH by exact Hwf'.
    rewrite keys_dict_set. cbn [keys map fst filter].
    fold (keys e).
    destruct (has_key k (keys d)) eqn:E; cbn [negb]; [reflexivity|].
    rewrite <- app_assoc. cbn [app]. do 2 f_equal.
    apply filter_ext_in. intros k' Hk'. f_equal.
    unfold has_key. rewrite existsb_app. cbn [existsb].
    destruct (String.eqb_spec k' k) as [->|_]; [contradiction|].
    now rewrite !orb_false_r.
Qed.

(** *** MacroResolver, continued *)

(** X1: where the scope has rules of its own, a rule of the scope whose
    pattern is also an "everywhere" pattern takes the place of that rule
    in the order of application, and the other rules of the scope run
    after all "everywhere" rules. *)
Theorem scope_rules_override_in_place :
  forall (m ev sc : dict yaml) (section : string),
    wf_dict sc ->
    dict_get "everywhere" m = Some (YMap ev) ->
    dict_get section m = Some (YMap sc) ->
    exists rules : dict yaml,
      macros_to_process (YMap m) section = Ok rules
      /\ keys rules
         = (keys ev ++ filter (fun k => negb (has_key k (keys ev))) (keys sc))%list
      /\ forall k : string,
           dict_get k rules = match dict_get k sc with
                              | Some v => Some v
                              | None => dict_get k ev
                              end.
Proof.
  intros m ev sc section Hwf Hev Hsc.
  exists (dict_update ev sc). split; [|split].
  - rewrite (macros_to_process_overlay m ev section Hev). now rewrite Hsc.
  - now apply keys_dict_update.
  - intros k. now apply dict_get_update.
Qed.

Lemma re_sub_ok_inv (find : string) (replace content v : yaml) :
  Re.sub find replace content = Ok v ->
  (exists s, content = YStr s) /\ (exists s', v = YStr s').
Proof.
  unfold Re.sub. destruct (Re.compile find); simpl; [|discriminate].
  destruct replace; try discriminate.
  destruct (Re.template s); simpl; [|discriminate].
  destruct content; try discriminate.
  intros H. injection H as <-. split; eexists; reflexivity.
Qed.

Lemma apply_rules_str (rules : dict yaml) (s : string) (v : yaml) :
  apply_rules rules (YStr s) = Ok v -> exists s', v = YStr s'.
Proof.
  revert s. induction rules as [|[find replace] rules IH]; simpl; intros s H.
  - injection H as <-. now exists s.
  - destruct (Re.sub find replace (YStr s)) as [c|] eqn:E; [|discriminate].
    destruct (re_sub_ok_inv _ _ _ _ E) as [_ [s' ->]]. now apply (IH s').
Qed.

(** X2: macro substitution turns text into text: when it succeeds on a
    string, its result is a string. *)
Theorem substitute_keeps_strings :
  forall (macros : yaml) (s scope : string) (v : yaml),
    macro_substitute macros (YStr s) scope = Ok v ->
    exists s' : string, v = YStr s'.
Proof.
  intros macros s scope v. unfold macro_substitute.
  destruct (macros_to_process macros scope); simpl; [|discriminate].
  apply apply_rules_str.
Qed.

(** X3: a value that is not a string survives macro substitution only
    when the rule set of the scope is empty, and then unchanged; as
    soon as one rule applies to the scope, substitution raises. *)
Theorem substitute_non_string :
  forall (macros content v : yaml) (scope : string),
    (forall s, content <> YStr s) ->
    macro_substitute macros content scope = Ok v ->
    macros_to_process macros scope = Ok [] /\ v = content.
Proof.
  intros macros content v scope Hns. unfold macro_substitute.
  destruct (macros_to_process macros scope) as [[|[find replace] rules]|];
    simpl; try discriminate.
  - intros H. injection H as <-. now split.
  - destruct (Re.sub find replace content) eqn:E; [|discriminate].
    destruct (re_sub_ok_inv _ _ _ _ E) as [[s ->] _]. now destruct (Hns s).
Qed.

Lemma sub_scan_unmatched (p : Re.pattern) (repl s : string) :
  matches_somewhere p s = false -> Re.sub_scan p repl 0 s = s.
Proof.
  induction s as [|c s IH]; cbn [matches_somewhere Re.sub_scan].
  - destruct (Re.match_here p "") as [n|]; [discriminate|reflexivity].
  - destruct (Re.match_here p (String c s)) as [n|]; [discriminate|].
    intros H. now rewrite IH.
Qed.

(** X4: rules whose patterns occur nowhere in a text leave it as it
    is: without a match a substitution is a no-op, not an error. *)
Theorem unmatched_rules_change_nothing :
  forall (macros : yaml) (scope s : string) (rules : dict yaml),
    macros_to_process macros scope = Ok rules ->
    Forall (unmatched_rule s) rules ->
    macro_substitute macros (YStr s) scope = Ok (YStr s).
Proof.
  intros macros scope s rules Hrules Hall. unfold macro_substitute.
  rewrite Hrules. cbn [rbind]. clear Hrules.
  induction Hall as [|[find replace] rules Hrule _ IH]; [reflexivity|].
  destruct Hrule as [p [r [Hp [Hr [Hb Hm]]]]]. cbn [fst snd] in *. subst replace.
  cbn [apply_rules]. unfold Re.sub, Re.template. rewrite Hp, Hb. cbn [rbind].
  rewrite sub_scan_unmatched by exact Hm. exact IH.
Qed.

(** *** TableRenderer, continued *)

Lemma map_result_length {A B} (f : A -> result B) (l : list A) (r : list B) :
  map_result f l = Ok r -> List.length r = List.length l.
Proof.
  revert r. induction l as [|a l IH]; simpl; intros r H.
  - now injection H as <-.
  - destruct (f a); [|discriminate]. simpl in H.
    destruct (map_result f l) as [bs|]; [|discriminate]. simpl in H.
    injection H as <-. simpl. f_equal. now apply IH.
Qed.

Lemma map_result_perm {A B} (f : A -> result B) (l l' : list A) :
  Permutation l l' ->
  forall r, map_result f l = Ok r ->
            exists r', map_result f l' = Ok r' /\ Permutation r r'.
Proof.
  induction 1 as [|x l l' _ IH|x y l|l l' l'' _ IH1 _ IH2]; intros r Hr.
  - exists r. now split.
  - simpl in *. destruct (f x) as [b|]; [|discriminate]. simpl in *.
    destruct (map_result f l) as [bs|]; [|discriminate]. simpl in Hr.
    injection Hr as <-. destruct (IH bs eq_refl) as [bs' [-> Hp]]. simpl.
    exists (b :: bs'). split; [reflexivity|now constructor].
  - simpl in *. destruct (f y) as [b|]; [|discriminate]. simpl in *.
    destruct (f x) as [c|]; [|discriminate]. simpl in *.
    destruct (map_result f l) as [bs|]; [|discriminate]. simpl in *.
    injection Hr as <-. exists (c :: b :: bs). split; [reflexivity|apply perm_swap].
  - destruct (IH1 r Hr) as [r' [Hr' Hp]]. destruct (IH2 r' Hr') as [r'' [Hr'' Hp']].
    exists r''. split; [exact Hr''|now transitivity r'].
Qed.

Lemma row_keys_perm (d : dict yaml) (ks : list string) :
  row_keys d = Ok ks -> Permutation ks (keys d).
Proof.
  unfold row_keys. destruct (truthy _).
  - rewrite sorted_keys_sort_by. intros H. injection H as <-. apply sort_by_perm.
  - intros H. now injection H as <-.
Qed.

(** X5: sorted or not, a rendered table has exactly one row for every
    key of its definition other than "__re-sort__". *)
Theorem one_row_per_key :
  forall (macros : yaml) (d : dict yaml) (rows : list (yaml * yaml)),
    table_rows macros d = Ok rows ->
    List.length rows = List.length (filter not_reserved (keys d)).
Proof.
  intros macros d rows. unfold table_rows.
  destruct (row_keys d) as [ks|] eqn:Hks; simpl; [|discriminate].
  rewrite add_rows_map_result. intros H.
  apply map_result_length in H. rewrite H.
  apply Permutation_length, Permutation_filter. now apply row_keys_perm.
Qed.

(** X6: the "__re-sort__" directive only reorders: the rows of a sorted
    table are a permutation of the rows the same entries give in
    insertion order. *)
Theorem re_sort_only_reorders :
  forall (macros : yaml) (d : dict yaml) (rows : list (yaml * yaml)),
    wf_dict d ->
    truthy (re_sort_flag d) = true ->
    table_rows macros d = Ok rows ->
    exists rows0 : list (yaml * yaml),
      map_result (row_of_item macros)
        (filter (fun kv => not_reserved (fst kv)) d) = Ok rows0
      /\ Permutation rows rows0.
Proof.
  intros macros d rows Hwf Hflag. unfold table_rows.
  destruct (row_keys d) as [ks|] eqn:Hks; simpl; [|discriminate].
  rewrite add_rows_map_result. intros H.
  assert (Hp : Permutation (filter not_reserved ks) (filter not_reserved (keys d)))
    by now apply Permutation_filter, row_keys_perm.
  destruct (map_result_perm _ _ _ Hp rows H) as [rows0 [H0 Hp0]].
  exists rows0. split; [|exact Hp0].
  rewrite <- H0. symmetry. apply map_result_items.
  intros [k v] Hin. now apply dict_get_in.
Qed.



Section TableEdges.

Variable pt_get_string : list (yaml * yaml) -> string.

(** X8: a definition that holds the "__re-sort__" entry and nothing
    else is rendered as a table without rows, not as the no-entries
    placeholder. *)
Theorem directive_only_table_is_empty_table :
  forall (macros : yaml) (name : string) (v : yaml),
    get_rst_table pt_get_string macros name (YMap [(re_sort, v)])
    = Ok (indent_rows (pt_get_string [])).
Proof.
  intros macros name v. unfold get_rst_table, table_rows, row_keys.
  cbn [truthy negb rbind dict_get keys map fst].
  rewrite String.eqb_refl.
  destruct (truthy v).
  - rewrite sorted_keys_sort_by. cbn [rbind]. rewrite add_rows_map_result.
    reflexivity.
  - reflexivity.
Qed.

(** X9: a table definition that is not a mapping is rendered as the
    placeholder when it is falsy (null, false, 0, an empty string or
    list) and raises AttributeError otherwise. *)
Theorem table_definition_not_a_mapping :
  forall (macros : yaml) (name : string) (v : yaml),
    (forall d, v <> YMap d) ->
    get_rst_table pt_get_string macros name v
    = if truthy v then Raise AttributeError else Ok (no_entries name).
Proof.
  intros macros name v Hv. unfold get_rst_table.
  destruct v as [| | | | |d]; cbn [truthy]; try reflexivity.
  - now destruct b.
  - now destruct (Z.eqb z 0).
  - now destruct (String.eqb s "").
  - now destruct l.
  - now destruct (Hv d).
Qed.

End TableEdges.

(** *** The effect monad, continued *)

Lemma bind_ok_inv {A B} (m : M A) (k : A -> M B) (t : list event) (b : B) :
  bind m k = (t, Ok b) ->
  exists t1 a t2, m = (t1, Ok a) /\ k a = (t2, Ok b) /\ t = (t1 ++ t2)%list.
Proof.
  destruct m as [t1 [a|e]]; simpl; [|discriminate].
  destruct (k a) as [t2 r] eqn:E. intros H. injection H as <- ->.
  now exists t1, a, t2.
Qed.

Lemma bind_assoc {A B C} (m : M A) (f : A -> M B) (g : B -> M C) :
  bind (bind m f) g = bind m (fun a => bind (f a) g).
Proof.
  destruct m as [t [a|e]]; simpl; [|reflexivity].
  destruct (f a) as [t' [b|e']]; simpl; [|reflexivity].
  destruct (g b). now rewrite app_assoc.
Qed.

Lemma for_fold_split {A B} (body : B -> A -> M B) (l1 l2 : list A) (b : B) :
  for_fold body (l1 ++ l2) b = bind (for_fold body l1 b) (for_fold body l2).
Proof.
  revert b. induction l1 as [|a l1 IH]; intros b.
  - cbn [app for_fold]. unfold ret. simpl. now destruct (for_fold body l2 b).
  - cbn [app for_fold]. rewrite bind_assoc.
    destruct (body b a) as [t [b'|e]]; simpl; [rewrite IH|]; reflexivity.
Qed.

Lemma quiet_app (t1 t2 : list event) : quiet t1 -> quiet t2 -> quiet (t1 ++ t2).
Proof. unfold quiet. intros H1 H2. apply Forall_app. now split. Qed.

Lemma bind_quiet {A B} (m : M A) (k : A -> M B) :
  quiet (fst m) -> (forall a, quiet (fst (k a))) -> quiet (fst (bind m k)).
Proof.
  destruct m as [t [a|e]]; simpl; intros Hm Hk; [|exact Hm].
  specialize (Hk a). destruct (k a) as [t' r]. simpl in *. now apply quiet_app.
Qed.

Lemma lift_quiet {A} (r : result A) : quiet (fst (lift r)).
Proof. constructor. Qed.

Lemma for_fold_quiet {A B} (body : B -> A -> M B) (l : list A) (b : B) :
  (forall b a, quiet (fst (body b a))) -> quiet (fst (for_fold body l b)).
Proof.
  intros Hbody. revert b. induction l as [|a l IH]; intros b; simpl.
  - constructor.
  - apply bind_quiet; [apply Hbody|exact IH].
Qed.

Lemma writes_app (t1 t2 : list event) : writes (t1 ++ t2) = (writes t1 ++ writes t2)%list.
Proof.
  induction t1 as [|e t1 IH]; simpl; [reflexivity|].
  destruct e; simpl; now rewrite IH.
Qed.

Lemma quiet_writes (t : list event) : quiet t -> writes t = [].
Proof.
  induction 1 as [|e t He _ IH]; simpl; [reflexivity|]. now destruct e.
Qed.

Lemma quiet_publishes (t : list event) : quiet t -> publishes t = false.
Proof.
  unfold publishes. induction 1 as [|e t He _ IH]; simpl; [reflexivity|].
  now destruct e.
Qed.

(** *** IndexComposer, continued *)

Lemma append_nil_r (s : string) : s ++ "" = s.
Proof. induction s as [|c s IH]; simpl; congruence. Qed.

(** X10: a section whose title or contents is missing or null adds
    nothing to the index; the only effect is the warning. *)
Theorem section_without_title_or_contents_skipped :
  forall (macros : yaml) (output : string) (s : dict yaml),
    field s "title" YNull = YNull \/ field s "contents" YNull = YNull ->
    index_section macros output (YMap s)
    = ([Warn "Empty section found!"], Ok output).
Proof.
  intros macros output s H. unfold index_section, yaml_get, lift, field in *.
  destruct (dict_get "title" s) as [title|];
    destruct (dict_get "contents" s) as [contents|];
    destruct (dict_get "anchor" s); destruct (dict_get "hidden" s);
    cbn [bind app];
    destruct H as [H|H]; try discriminate; subst;
    cbn [is_none orb]; rewrite ?orb_true_r; reflexivity.
Qed.

Lemma index_section_quiet (macros : yaml) (output : string) (section : yaml) :
  quiet (fst (index_section macros output section)).
Proof.
  unfold index_section.
  repeat (apply bind_quiet; [apply lift_quiet|intros ?]).
  destruct (is_none _ || is_none _).
  - repeat constructor.
  - repeat (apply bind_quiet; [apply lift_quiet|intros ?]). apply lift_quiet.
Qed.

Lemma heading_acc (anchor : yaml) (w : nat) (title : yaml) (o x : string) :
  heading anchor w title (o ++ x)
  = rbind (heading anchor w title x) (fun y => Ok (o ++ y)).
Proof.
  unfold heading.
  destruct (truthy anchor); [destruct (py_str anchor); [|reflexivity]|];
    cbn [rbind]; destruct title; cbn [str_concat rbind]; try reflexivity;
    now rewrite !append_assoc.
Qed.

(** The output so far is only ever extended at its end. *)
Lemma index_section_acc (macros : yaml) (o x : string) (section : yaml) :
  index_section macros (o ++ x) section
  = (fst (index_section macros x section),
     rbind (snd (index_section macros x section)) (fun y => Ok (o ++ y))).
Proof.
  unfold index_section.
  destruct (yaml_get section "title" YNull) as [title|]; [|reflexivity].
  destruct (yaml_get section "anchor" YNull) as [anchor|]; [|reflexivity].
  destruct (yaml_get section "contents" YNull) as [contents|]; [|reflexivity].
  destruct (yaml_get section "hidden" (YBool false)) as [hidden|]; [|reflexivity].
  rewrite !bind_lift_ok.
  destruct (is_none title || is_none contents); [reflexivity|].
  destruct (macro_substitute macros title "title") as [title'|]; [|reflexivity].
  rewrite !bind_lift_ok.
  destruct (macro_substitute macros contents "contents") as [contents'|];
    [|reflexivity].
  rewrite !bind_lift_ok.
  destruct (str_split_lines title') as [lines|]; [|reflexivity].
  rewrite !bind_lift_ok.
  destruct (truthy hidden); cbn [negb].
  - rewrite !bind_lift_ok. destruct contents'; cbn [str_concat lift fst snd rbind];
      try reflexivity. now rewrite append_assoc.
  - rewrite heading_acc.
    destruct (heading anchor (list_max (map String.length lines)) title' x)
      as [h|]; cbn [rbind]; [|reflexivity].
    rewrite !bind_lift_ok. destruct contents'; cbn [str_concat lift fst snd rbind];
      try reflexivity. now rewrite append_assoc.
Qed.

Lemma index_loop_acc (macros : yaml) (secs : list yaml) (o x : string) :
  for_fold (index_section macros) secs (o ++ x)
  = (fst (for_fold (index_section macros) secs x),
     rbind (snd (for_fold (index_section macros) secs x)) (fun y => Ok (o ++ y))).
Proof.
  revert x. induction secs as [|sec secs IH]; intros x; [reflexivity|].
  cbn [for_fold]. rewrite index_section_acc.
  destruct (index_section macros x sec) as [t [y|e]]; cbn [fst snd rbind bind];
    [|reflexivity].
  rewrite IH. now destruct (for_fold (index_section macros) secs y).
Qed.

(** X11: the index of a list of sections followed by another is the
    index of the first followed by the index of the second, warnings
    included: every section adds its own text whatever came before. *)
Theorem index_of_concatenation :
  forall (m : yaml) (ts : dict yaml) (secs1 secs2 : list yaml)
         (t1 t2 : list event) (out1 out2 : string),
    get_index_rst {| macros := m; sections := YSeq secs1; tables := ts |}
    = (t1, Ok out1) ->
    get_index_rst {| macros := m; sections := YSeq secs2; tables := ts |}
    = (t2, Ok out2) ->
    get_index_rst {| macros := m; sections := YSeq (secs1 ++ secs2); tables := ts |}
    = ((t1 ++ t2)%list, Ok (out1 ++ out2)).
Proof.
  intros m ts secs1 secs2 t1 t2 out1 out2. unfold get_index_rst.
  cbn [sections macros iterate]. rewrite !bind_lift_ok.
  intros H1 H2. rewrite for_fold_split, H1. cbn [bind].
  rewrite <- (append_nil_r out1) at 1. rewrite index_loop_acc, H2.
  reflexivity.
Qed.

(** *** Paths, continued *)

Lemma normalize_plain (pre parts : list string) :
  forallb plain_part parts = true ->
  normalize (pre ++ parts) = (normalize pre ++ parts)%list.
Proof.
  unfold normalize. rewrite fold_left_app.
  generalize (fold_left
                (fun acc c => if String.eqb c ".." then removelast acc
                              else (acc ++ [c])%list) pre []).
  induction parts as [|c parts IH]; intros acc H; simpl.
  - now rewrite app_nil_r.
  - simpl in H. apply andb_true_iff in H. destruct H as [Hc Hparts].
    unfold plain_part in Hc. apply negb_true_iff in Hc. rewrite Hc.
    rewrite IH by exact Hparts. now rewrite <- app_assoc.
Qed.

Lemma ancestors_in (r : root) (parts : list string) (n k : nat) :
  k < n -> In (Path r (firstn k parts)) (ancestors r parts n).
Proof.
  induction n as [|n IH]; intros Hk; [lia|].
  simpl. destruct (Nat.eq_dec k n) as [->|Hne]; [now left|].
  right. apply IH. lia.
Qed.

(** A directory is among the parents of everything below it. *)
Lemma in_parents_below (r : root) (l rest : list string) :
  rest <> [] -> in_parents (Path r l) (Path r (l ++ rest)) = true.
Proof.
  intros Hrest. unfold in_parents, parents. cbn [p_root p_parts].
  apply existsb_exists. exists (Path r l). split; [|apply path_eqb_refl].
  rewrite <- (firstn_all l) at 1.
  rewrite <- (app_nil_r (firstn (List.length l) l)).
  replace (@nil string) with (firstn (List.length l - List.length l) rest)
    by now rewrite Nat.sub_diag.
  rewrite <- firstn_app. apply ancestors_in.
  rewrite length_app. destruct rest; [contradiction|simpl; lia].
Qed.

Lemma resolve_below (cwd : list string) (d : path) (parts : list string) :
  parts <> [] -> forallb plain_part parts = true ->
  in_parents (lexical cwd d)
             (lexical cwd (Path (p_root d) (p_parts d ++ parts))) = true.
Proof.
  intros Hne Hplain. unfold lexical. cbn [p_root p_parts].
  destruct (p_root d).
  - rewrite (app_assoc cwd), (normalize_plain (cwd ++ p_parts d) parts Hplain).
    now apply in_parents_below.
  - rewrite (normalize_plain (p_parts d) parts Hplain). now apply in_parents_below.
  - rewrite (normalize_plain (p_parts d) parts Hplain). now apply in_parents_below.
Qed.

Lemma join_relative (d q : path) :
  p_root q = Relative -> join d q = Path (p_root d) (p_parts d ++ p_parts q).
Proof. unfold join. now intros ->. Qed.

Lemma split_on_no_sep (sep : ascii) (s : string) :
  contains_char sep s = false -> split_on sep s = [s].
Proof.
  induction s as [|c s IH]; simpl; [reflexivity|].
  intros H. apply orb_false_iff in H. destruct H as [Hc Hs].
  rewrite Hc, IH by exact Hs. reflexivity.
Qed.

(** Text without the separator, put after a string, extends the last
    piece of its split. *)
Lemma split_on_append (sep : ascii) (a b : string) :
  contains_char sep b = false ->
  exists init x, split_on sep a = (init ++ [x])%list
                 /\ split_on sep (a ++ b) = (init ++ [(x ++ b)%string])%list.
Proof.
  intros Hb. induction a as [|c a [init [x [Ha Hab]]]].
  - exists [], "". simpl. split; [reflexivity|now apply split_on_no_sep].
  - cbn [append split_on]. rewrite Ha, Hab.
    destruct (Ascii.eqb c sep).
    + exists ("" :: init), x. now split.
    + destruct init as [|i init]; cbn [app].
      * exists [], (String c x). now split.
      * exists (String c i :: init), x. now split.
Qed.

Lemma rst_parts_last (table : string) :
  exists init x,
    p_parts (of_string (table ++ ".rst")) = (init ++ [(x ++ ".rst")%string])%list.
Proof.
  unfold of_string. cbn [p_parts].
  destruct (split_on_append "/" table ".rst" eq_refl) as [init [x [_ ->]]].
  exists (filter keep_part init), x.
  rewrite filter_app. f_equal. cbn [filter].
  assert (H : keep_part (x ++ ".rst") = true).
  { unfold keep_part.
    rewrite (proj2 (String.eqb_neq _ "")), (proj2 (String.eqb_neq _ "."));
      [reflexivity| |]; destruct x as [|c [|c' x]]; simpl; congruence. }
  now rewrite H.
Qed.

(** What an include entry inside the root directory does. *)
Lemma include_one_inside (realpath : path -> result path)
  (load_yaml : path -> result yaml)
  (input_path : path) (input_data : dict yaml) (i : string)
  (i_path root_dir : path) :
  realpath (include_path input_path i) = Ok i_path ->
  realpath (parent input_path) = Ok root_dir ->
  in_parents root_dir i_path = true ->
  snd (include_one realpath load_yaml input_path input_data (YStr i))
  = match load_yaml i_path with
    | Ok (YMap included) =>
        Ok (dict_update input_data
              (dict_of_list
                 (map (fun kv => (stem i_path ++ "/" ++ fst kv, snd kv)) included)))
    | Ok _ => Raise AttributeError
    | Raise e => Raise e
    end.
Proof.
  intros Hpath Hdir Hin. unfold include_one.
  rewrite Hpath, bind_lift_ok, bind_snd.
  destruct (negb (String.eqb (suffix i_path) ".yaml"));
    cbn [warn ret snd]; rewrite Hdir, bind_lift_ok, Hin; cbn [negb];
    rewrite bind_snd; unfold lift at 1; cbn [snd];
    (destruct (load_yaml i_path) as [doc|e]; [|reflexivity]);
    rewrite bind_snd; unfold lift at 1; cbn [snd]; destruct doc; reflexivity.
Qed.

Lemma has_nul_join (d q : path) :
  p_root q = Relative -> has_nul (join d q) = has_nul d || has_nul q.
Proof.
  intros Hq. rewrite join_relative by exact Hq. unfold has_nul. cbn [p_parts].
  apply existsb_app.
Qed.

Section PathSafety.

Variable cwd : list string.
Variable load_yaml : path -> result yaml.

(** X12: in a file system without symbolic links, a table whose name
    does not start with a slash and has no [..] component has its
    destination inside the output directory, so the escape warning is
    for names with [..] or a leading slash only: whatever else happens
    to such a table, that warning is not logged for it. *)
Theorem plain_table_name_stays_inside :
  forall (output_dir : path) (table : string),
    p_root (of_string (table ++ ".rst")) = Relative ->
    forallb plain_part (p_parts (of_string (table ++ ".rst"))) = true ->
    in_parents (lexical cwd output_dir)
               (lexical cwd (table_path output_dir table)) = true
    /\ (forall d p : path,
           resolve cwd output_dir = Ok d ->
           resolve cwd (table_path output_dir table) = Ok p ->
           in_parents d p = true)
    /\ (forall (io_error : event -> bool)
               (pt_get_string : list (yaml * yaml) -> string)
               (macros contents : yaml),
           ~ In (Warn (table_escape_warning table))
                (fst (process_table (resolve cwd) io_error pt_get_string macros
                        output_dir table contents))).
Proof.
  intros output_dir table Hroot Hplain.
  assert (Hin : in_parents (lexical cwd output_dir)
                           (lexical cwd (table_path output_dir table)) = true).
  { unfold table_path. rewrite join_relative by exact Hroot.
    apply resolve_below; [|exact Hplain].
    destruct (rst_parts_last table) as [init [x ->]]. now destruct init. }
  split; [exact Hin|]. split.
  - unfold resolve. intros d p Hd Hp.
    destruct (has_nul output_dir); [discriminate|].
    destruct (has_nul (table_path output_dir table)); [discriminate|].
    injection Hd as <-. injection Hp as <-. exact Hin.
  - intros io_error pt_get_string macros contents. unfold process_table.
    destruct (String.eqb table "index").
    + intros [H|[]]. discriminate H.
    + unfold resolve.
      destruct (has_nul output_dir); [intros []|].
      destruct (has_nul (table_path output_dir table)); [intros []|].
      rewrite !bind_lift_ok, Hin. cbn [negb]. unfold emit.
      destruct (io_error (Mkdir (parent (table_path output_dir table))));
        [intros [H|[]]; discriminate H|].
      destruct (get_rst_table pt_get_string macros table contents) as [text|e];
        [|intros [H|[]]; discriminate H].
      destruct (io_error (WriteText (table_path output_dir table) text));
        intros [H|[H|[]]]; discriminate H.
Qed.

(** X13: in a file system without symbolic links, an include entry
    that is a relative path with at least one component and no [..],
    where neither the entry nor the directory of the root document holds
    the character U+0000, resolves inside the directory of the root
    document and is never skipped as escaping: its file is read, a file
    that cannot be read or does not hold a mapping ends the load, and a
    mapping is merged under qualified keys. *)
Theorem plain_include_is_read :
  forall (input_path : path) (input_data : dict yaml) (i : string),
    p_root (of_string i) = Relative ->
    p_parts (of_string i) <> [] ->
    forallb plain_part (p_parts (of_string i)) = true ->
    has_nul (include_path input_path i) = false ->
    exists i_path root_dir : path,
      resolve cwd (include_path input_path i) = Ok i_path
      /\ resolve cwd (parent input_path) = Ok root_dir
      /\ in_parents root_dir i_path = true
      /\ snd (include_one (resolve cwd) load_yaml input_path input_data
                (YStr i))
         = match load_yaml i_path with
           | Ok (YMap included) =>
               Ok (dict_update input_data
                     (dict_of_list
                        (map (fun kv => (stem i_path ++ "/" ++ fst kv, snd kv))
                             included)))
           | Ok _ => Raise AttributeError
           | Raise e => Raise e
           end.
Proof.
  intros input_path input_data i Hroot Hne Hplain Hnul.
  assert (Hnul' := Hnul). unfold include_path in Hnul'.
  rewrite has_nul_join in Hnul' by exact Hroot.
  apply orb_false_iff in Hnul'. destruct Hnul' as [Hdirnul _].
  assert (Hpath : resolve cwd (include_path input_path i)
                  = Ok (lexical cwd (include_path input_path i)))
    by (unfold resolve; now rewrite Hnul).
  assert (Hdir : resolve cwd (parent input_path)
                 = Ok (lexical cwd (parent input_path)))
    by (unfold resolve; now rewrite Hdirnul).
  assert (Hin : in_parents (lexical cwd (parent input_path))
                           (lexical cwd (include_path input_path i)) = true).
  { unfold include_path. rewrite join_relative by exact Hroot.
    now apply resolve_below. }
  exists (lexical cwd (include_path input_path i)), (lexical cwd (parent input_path)).
  repeat split; try assumption.
  now apply (include_one_inside (resolve cwd) load_yaml input_path
               input_data i _ _ Hpath Hdir Hin).
Qed.

End PathSafety.

(** *** Loader, continued *)

Lemma append_inj_l (p a b : string) : p ++ a = p ++ b -> a = b.
Proof. induction p as [|c p IH]; simpl; intros H; [exact H|]. injection H. exact IH. Qed.

Lemma contains_char_append (c : ascii) (a b : string) :
  contains_char c (a ++ b) = contains_char c a || contains_char c b.
Proof.
  induction a as [|x a IH]; simpl; [reflexivity|]. now rewrite IH, orb_assoc.
Qed.

Section Qualified.

Variable f : string -> string.
Hypothesis f_inj : forall a b, f a = f b -> a = b.

Lemma keys_qualified (inc : dict yaml) :
  keys (map (fun kv => (f (fst kv), snd kv)) inc) = map f (keys inc).
Proof. unfold keys. rewrite !map_map. reflexivity. Qed.

Lemma wf_qualified (inc : dict yaml) :
  wf_dict inc -> wf_dict (map (fun kv => (f (fst kv), snd kv)) inc).
Proof.
  unfold wf_dict. rewrite keys_qualified.
  induction 1 as [|k ks Hnot _ IH]; simpl; constructor; [|exact IH].
  intros Hin. apply in_map_iff in Hin. destruct Hin as [k' [Heq Hk']].
  apply f_inj in Heq. now subst.
Qed.

Lemma dict_get_qualified (k : string) (inc : dict yaml) :
  dict_get (f k) (map (fun kv => (f (fst kv), snd kv)) inc) = dict_get k inc.
Proof.
  induction inc as [|[k0 v0] inc IH]; simpl; [reflexivity|].
  destruct (String.eqb_spec k k0) as [->|Hne].
  - now rewrite String.eqb_refl.
  - destruct (String.eqb_spec (f k) (f k0)) as [Heq|_]; [|exact IH].
    now apply f_inj in Heq.
Qed.

End Qualified.

Lemma qualify_inj (st a b : string) : st ++ "/" ++ a = st ++ "/" ++ b -> a = b.
Proof. intros H. apply append_inj_l in H. now apply (append_inj_l "/") in H. Qed.

Lemma dict_get_of_list {V} (k : string) (l : list (string * V)) :
  wf_dict l -> dict_get k (dict_of_list l) = dict_get k l.
Proof.
  intros Hwf. unfold dict_of_list. rewrite dict_get_update by exact Hwf.
  now destruct (dict_get k l).
Qed.

Lemma wf_dict_of_list {V} (l : list (string * V)) : wf_dict (dict_of_list l).
Proof. apply wf_dict_update. constructor. Qed.

Lemma keys_dict_update_incl {V} (k : string) (d e : dict V) :
  In k (keys (dict_update d e)) -> In k (keys d) \/ In k (keys e).
Proof.
  unfold dict_update. revert d.
  induction e as [|[k0 v0] e IH]; simpl; intros d H; [now left|].
  apply IH in H. destruct H as [H|H]; [|now right; right].
  rewrite keys_dict_set in H. destruct (has_key k0 (keys d)); [now left|].
  apply in_app_iff in H. destruct H as [H|[H|[]]]; [now left|now right; left].
Qed.

Section LoaderProperties.

Variable realpath : path -> result path.
Variable load_yaml : path -> result yaml.

(** X14: after an include that is read, every key [k] of the included
    document is found under "<stem>/k" with its value, whatever the
    namespace held there, and every other key of the namespace keeps the
    value it had. *)
Theorem included_keys_are_qualified :
  forall (input_path : path) (d inc : dict yaml) (i : string)
         (i_path root_dir : path),
    realpath (include_path input_path i) = Ok i_path ->
    realpath (parent input_path) = Ok root_dir ->
    in_parents root_dir i_path = true ->
    load_yaml i_path = Ok (YMap inc) ->
    wf_dict inc ->
    exists d' : dict yaml,
      snd (include_one realpath load_yaml input_path d (YStr i)) = Ok d'
      /\ (forall k v, In (k, v) inc ->
            dict_get (stem i_path ++ "/" ++ k) d' = Some v)
      /\ (forall q,
            (forall k, In k (keys inc) -> q <> stem i_path ++ "/" ++ k) ->
            dict_get q d' = dict_get q d).
Proof.
  intros input_path d inc i i_path root_dir Hpath Hdir Hin Hload Hwf.
  rewrite (include_one_inside realpath load_yaml input_path d i _ _ Hpath Hdir Hin),
    Hload.
  set (st := stem i_path).
  set (f := fun k : string => st ++ "/" ++ k).
  change (fun kv : string * yaml => (st ++ "/" ++ fst kv, snd kv))
    with (fun kv : string * yaml => (f (fst kv), snd kv)).
  assert (Hinj : forall a b, f a = f b -> a = b) by (intros a b; apply qualify_inj).
  assert (Hq : forall q,
             dict_get q (dict_update d
                           (dict_of_list (map (fun kv => (f (fst kv), snd kv)) inc)))
             = match dict_get q (map (fun kv => (f (fst kv), snd kv)) inc) with
               | Some v => Some v
               | None => dict_get q d
               end).
  { intros q. rewrite dict_get_update by apply wf_dict_of_list.
    rewrite dict_get_of_list; [reflexivity|]. now apply wf_qualified. }
  eexists. split; [reflexivity|]. split.
  - intros k v Hkv. rewrite Hq. change (st ++ "/" ++ k) with (f k).
    rewrite (dict_get_qualified f Hinj). now rewrite (dict_get_in k v inc Hwf Hkv).
  - intros q Hnot. rewrite Hq.
    assert (Hnone : dict_get q (map (fun kv => (f (fst kv), snd kv)) inc) = None).
    { apply dict_get_none. rewrite keys_qualified.
      intros H. apply in_map_iff in H. destruct H as [k [Heq Hk]].
      apply (Hnot k Hk). now symmetry. }
    now rewrite Hnone.
Qed.

Lemma keys_dict_of_list {V} (l : list (string * V)) :
  wf_dict l -> keys (dict_of_list l) = keys l.
Proof.
  intros Hwf. unfold dict_of_list. rewrite keys_dict_update by exact Hwf.
  assert (H : forall ks : list string,
             filter (fun k => negb (has_key k (keys (@nil (string * V))))) ks = ks).
  { induction ks as [|k ks IH]; [reflexivity|].
    change (k :: filter (fun k => negb (has_key k (keys (@nil (string * V))))) ks
            = k :: ks).
    now rewrite IH. }
  now rewrite H.
Qed.

(** X15: an include that is read keeps the keys of the namespace in
    their order and puts the qualified keys that are new after them, in
    the order of the included document: included tables are processed
    after the tables that were there. *)
Theorem included_keys_come_last :
  forall (input_path : path) (d inc : dict yaml) (i : string)
         (i_path root_dir : path),
    realpath (include_path input_path i) = Ok i_path ->
    realpath (parent input_path) = Ok root_dir ->
    in_parents root_dir i_path = true ->
    load_yaml i_path = Ok (YMap inc) ->
    wf_dict inc ->
    exists d' : dict yaml,
      snd (include_one realpath load_yaml input_path d (YStr i)) = Ok d'
      /\ keys d'
         = (keys d
            ++ filter (fun q => negb (has_key q (keys d)))
                 (map (fun k => (stem i_path ++ "/" ++ k)%string) (keys inc)))%list.
Proof.
  intros input_path d inc i i_path root_dir Hpath Hdir Hin Hload Hwf.
  rewrite (include_one_inside realpath load_yaml input_path d i _ _ Hpath Hdir Hin),
    Hload.
  set (st := stem i_path).
  set (f := fun k : string => st ++ "/" ++ k).
  change (fun kv : string * yaml => (st ++ "/" ++ fst kv, snd kv))
    with (fun kv : string * yaml => (f (fst kv), snd kv)).
  assert (Hinj : forall a b, f a = f b -> a = b) by (intros a b; apply qualify_inj).
  eexists. split; [reflexivity|].
  rewrite keys_dict_update by apply wf_dict_of_list.
  rewrite keys_dict_of_list by now apply wf_qualified.
  now rewrite keys_qualified.
Qed.

Lemma for_fold_invariant {A B} (body : B -> A -> M B) (P : B -> Prop) :
  (forall b a t b', body b a = (t, Ok b') -> P b -> P b') ->
  forall l b t b', for_fold body l b = (t, Ok b') -> P b -> P b'.
Proof.
  intros Hbody. induction l as [|a l IH]; intros b t b' H Hb.
  - cbn [for_fold] in H. unfold ret in H. injection H as _ <-. exact Hb.
  - cbn [for_fold] in H. apply bind_ok_inv in H.
    destruct H as [t1 [b1 [t2 [H1 [H2 _]]]]].
    apply (IH b1 t2 b' H2). now apply (Hbody b a t1 b1).
Qed.

(** A successful include leaves the namespace as it was or merges
    qualified keys into it. *)
Lemma include_one_ok (input_path : path) (d d' : dict yaml) (i : yaml)
  (t : list event) :
  include_one realpath load_yaml input_path d i = (t, Ok d') ->
  d' = d
  \/ exists st inc,
       d' = dict_update d
              (dict_of_list (map (fun kv => (st ++ "/" ++ fst kv, snd kv)) inc)).
Proof.
  destruct i as [| | |i| |]; try discriminate.
  unfold include_one. intros H.
  apply bind_ok_inv in H. destruct H as [t0 [i_path [t0' [_ [H _]]]]].
  apply bind_ok_inv in H. destruct H as [t1 [[] [t2 [_ [H _]]]]].
  apply bind_ok_inv in H. destruct H as [t1' [root_dir [t2' [_ [H _]]]]].
  destruct (negb (in_parents root_dir i_path)).
  - apply bind_ok_inv in H. destruct H as [t3 [[] [t4 [_ [H _]]]]].
    unfold ret in H. injection H as _ <-. now left.
  - apply bind_ok_inv in H. destruct H as [t3 [doc [t4 [_ [H _]]]]].
    apply bind_ok_inv in H. destruct H as [t5 [inc [t6 [_ [H _]]]]].
    unfold ret in H. injection H as _ <-. right. now exists (stem i_path), inc.
Qed.

Lemma qualified_key_has_slash (st k : string) :
  contains_char "/" (st ++ "/" ++ k) = true.
Proof.
  rewrite contains_char_append. cbn [append contains_char].
  rewrite Ascii.eqb_refl. now rewrite orb_true_r.
Qed.

(** Merging an included document never touches a key without a slash. *)
Lemma include_one_keeps (q : string) (input_path : path) (d d' : dict yaml)
  (i : yaml) (t : list event) :
  contains_char "/" q = false ->
  include_one realpath load_yaml input_path d i = (t, Ok d') ->
  dict_get q d' = dict_get q d.
Proof.
  intros Hq H. apply include_one_ok in H. destruct H as [->|[st [inc ->]]];
    [reflexivity|].
  rewrite dict_get_update by apply wf_dict_of_list.
  assert (Hnone : dict_get q (dict_of_list
                                (map (fun kv => (st ++ "/" ++ fst kv, snd kv)) inc))
                  = None).
  { apply dict_get_none. intros Hin. apply keys_dict_update_incl in Hin.
    destruct Hin as [[]|Hin].
    unfold keys in Hin. rewrite map_map in Hin. cbn [fst] in Hin.
    apply in_map_iff in Hin. destruct Hin as [[k v] [Heq _]].
    rewrite <- Heq, qualified_key_has_slash in Hq. discriminate. }
  now rewrite Hnone.
Qed.

Lemma init_ok_inv (input_path : path) (t : list event) (c : Conventor) :
  __init__ realpath load_yaml input_path = (t, Ok c) ->
  exists d0 inc entries d2 m s,
    load_yaml input_path = Ok (YMap d0)
    /\ dict_get "include" d0 = Some inc
    /\ iterate inc = Ok entries
    /\ for_fold (include_one realpath load_yaml input_path) entries
                (dict_remove "include" d0) = (t, Ok d2)
    /\ dict_get "macros" d2 = Some m
    /\ dict_get "sections" (dict_remove "macros" d2) = Some s
    /\ c = {| macros := m; sections := s;
              tables := dict_remove "sections" (dict_remove "macros" d2) |}.
Proof.
  unfold __init__. intros H.
  destruct (load_yaml input_path) as [doc|] eqn:Hload; [|discriminate].
  rewrite bind_lift_ok in H.
  destruct doc as [| | | | |d0]; try discriminate.
  rewrite bind_lift_ok in H. unfold dict_pop in H.
  destruct (dict_get "include" d0) as [inc|] eqn:Hinc; [|discriminate].
  rewrite bind_lift_ok in H.
  destruct (iterate inc) as [entries|] eqn:Hit; [|discriminate].
  rewrite bind_lift_ok in H.
  apply bind_ok_inv in H. destruct H as [t1 [d2 [t2 [Hloop [H Ht]]]]].
  destruct (dict_get "macros" d2) as [m|] eqn:Hm; [|discriminate].
  rewrite bind_lift_ok in H.
  destruct (dict_get "sections" (dict_remove "macros" d2)) as [s|] eqn:Hs;
    [|discriminate].
  rewrite bind_lift_ok in H. unfold ret in H. injection H as <- <-.
  rewrite app_nil_r in Ht. subst t1.
  exists d0, inc, entries, d2, m, s. repeat split; assumption.
Qed.

(** X16: the loaded table namespace never holds the keys "include",
    "macros" or "sections": they are taken out of the root document, and
    the keys of included documents cannot bring them back. *)
Theorem reserved_keys_are_not_tables :
  forall (input_path : path) (t : list event) (c : Conventor),
    __init__ realpath load_yaml input_path = (t, Ok c) ->
    dict_get "include" (tables c) = None
    /\ dict_get "macros" (tables c) = None
    /\ dict_get "sections" (tables c) = None.
Proof.
  intros input_path t c H. apply init_ok_inv in H.
  destruct H as [d0 [inc [entries [d2 [m [s [_ [_ [_ [Hloop [_ [_ ->]]]]]]]]]]]].
  cbn [tables]. split; [|split].
  - rewrite !dict_get_remove_other by discriminate.
    apply (for_fold_invariant (include_one realpath load_yaml input_path)
             (fun d => dict_get "include" d = None)) in Hloop.
    + exact Hloop.
    + intros b a t' b' Hb Hnone.
      now rewrite (include_one_keeps "include" input_path b b' a t' eq_refl Hb).
    + apply dict_get_remove_same.
  - rewrite dict_get_remove_other by discriminate. apply dict_get_remove_same.
  - apply dict_get_remove_same.
Qed.

(** X17: if the keys of the root document are unique, so are the keys
    of the loaded table namespace. *)
Theorem loaded_tables_have_unique_keys :
  forall (input_path : path) (d0 : dict yaml) (t : list event) (c : Conventor),
    load_yaml input_path = Ok (YMap d0) ->
    wf_dict d0 ->
    __init__ realpath load_yaml input_path = (t, Ok c) ->
    wf_dict (tables c).
Proof.
  intros input_path d0 t c Hload Hwf H. apply init_ok_inv in H.
  destruct H as [d0' [inc [entries [d2 [m [s [Hload' [_ [_ [Hloop [_ [_ ->]]]]]]]]]]]].
  rewrite Hload in Hload'. injection Hload' as <-.
  cbn [tables]. do 2 apply wf_dict_remove.
  apply (for_fold_invariant (include_one realpath load_yaml input_path) wf_dict)
    in Hloop.
  - exact Hloop.
  - intros b a t' b' Hb Hwfb. apply include_one_ok in Hb.
    destruct Hb as [->|[st [inc' ->]]]; [exact Hwfb|now apply wf_dict_update].
  - now apply wf_dict_remove.
Qed.

(** X18: the load stops at the first include entry that raises: the
    exception of that entry is the outcome of the load, the warnings up
    to it are all that is logged, and no later entry is looked at. *)
Theorem failing_include_aborts_load :
  forall (input_path : path) (d0 d1 : dict yaml) (before after : list yaml)
         (entry : yaml) (tb te : list event) (e : exn),
    load_yaml input_path = Ok (YMap d0) ->
    dict_get "include" d0 = Some (YSeq (before ++ entry :: after)) ->
    for_fold (include_one realpath load_yaml input_path) before
             (dict_remove "include" d0) = (tb, Ok d1) ->
    include_one realpath load_yaml input_path d1 entry = (te, Raise e) ->
    __init__ realpath load_yaml input_path = ((tb ++ te)%list, Raise e).
Proof.
  intros input_path d0 d1 before after entry tb te e Hload Hinc Hbefore Hentry.
  unfold __init__. rewrite Hload, !bind_lift_ok. unfold dict_pop.
  rewrite Hinc, !bind_lift_ok. cbn [iterate]. rewrite bind_lift_ok.
  rewrite for_fold_split, Hbefore. cbn [for_fold bind]. rewrite Hentry.
  reflexivity.
Qed.

End LoaderProperties.

(** *** Publisher, continued *)

Lemma publishes_app (t1 t2 : list event) :
  publishes (t1 ++ t2) = publishes t1 || publishes t2.
Proof. unfold publishes. apply existsb_app. Qed.

Lemma written_files_app (t1 t2 : list event) :
  written_files (t1 ++ t2) = (written_files t1 ++ written_files t2)%list.
Proof.
  induction t1 as [|e t1 IH]; simpl; [reflexivity|].
  destruct e; simpl; now rewrite IH.
Qed.

Lemma written_files_no_publish (t : list event) :
  publishes t = false -> written_files t = writes t.
Proof.
  unfold publishes. induction t as [|e t IH]; simpl; [reflexivity|].
  destruct e; simpl; intros H; try discriminate; now rewrite IH.
Qed.

Section PublisherProperties.

Variable realpath : path -> result path.
Variable io_error : event -> bool.
Variable pt_get_string : list (yaml * yaml) -> string.

Lemma emit_inv (e : event) (t : list event) (r : result unit) :
  emit io_error e = (t, r) -> t = [e].
Proof. unfold emit. intros H. now injection H as <- _. Qed.

(** One table never hands anything to docutils. *)
Lemma process_table_no_publish (macros : yaml) (output_dir : path)
  (table : string) (contents : yaml) :
  publishes (fst (process_table realpath io_error pt_get_string macros output_dir
                    table contents)) = false.
Proof.
  unfold process_table, emit.
  destruct (String.eqb table "index"); [reflexivity|].
  destruct (realpath output_dir) as [resolved_dir|]; [|reflexivity].
  destruct (realpath (table_path output_dir table)) as [resolved_path|];
    [|reflexivity].
  rewrite !bind_lift_ok.
  destruct (negb (in_parents _ _));
    destruct (io_error (Mkdir _)); try reflexivity;
    destruct (get_rst_table pt_get_string macros table contents); try reflexivity;
    cbn [lift bind warn ret app]; destruct (io_error (WriteText _ _)); reflexivity.
Qed.

(** A table that is processed without an exception is written once, to
    its own destination, unless it is the table "index". *)
Lemma process_table_ok (macros : yaml) (output_dir : path) (table : string)
  (contents : yaml) (t : list event) (u : unit) :
  process_table realpath io_error pt_get_string macros output_dir table contents
  = (t, Ok u) ->
  writes t = if String.eqb table "index" then [] else [table_path output_dir table].
Proof.
  unfold process_table. destruct (String.eqb table "index").
  - unfold warn. intros H. now injection H as <- _.
  - intros H.
    apply bind_ok_inv in H. destruct H as [ta [rd [ta' [Ha [H ->]]]]].
    apply bind_ok_inv in H. destruct H as [tb [rp [tb' [Hb [H ->]]]]].
    apply bind_ok_inv in H. destruct H as [t1 [[] [t2 [H1 [H ->]]]]].
    apply bind_ok_inv in H. destruct H as [t3 [[] [t4 [H3 [H ->]]]]].
    apply bind_ok_inv in H. destruct H as [t5 [text [t6 [H5 [H ->]]]]].
    apply emit_inv in H3, H. unfold lift in Ha, Hb, H5.
    injection Ha as <- _. injection Hb as <- _. injection H5 as <- _. subst.
    rewrite !writes_app. cbn [writes app].
    destruct (negb (in_parents _ _)); injection H1 as <-; reflexivity.
Qed.

Lemma tables_loop_ok (macros : yaml) (output_dir : path) (tbls : dict yaml)
  (t : list event) (u u' : unit) :
  for_fold (fun _ kv => process_table realpath io_error pt_get_string macros output_dir
                          (fst kv) (snd kv)) tbls u = (t, Ok u') ->
  writes t = map (table_path output_dir)
               (filter (fun k => negb (String.eqb k "index")) (keys tbls))
  /\ publishes t = false.
Proof.
  revert t u. induction tbls as [|[k v] tbls IH]; intros t u H.
  - cbn [for_fold] in H. unfold ret in H. injection H as <-. now split.
  - cbn [for_fold fst snd] in H.
    apply bind_ok_inv in H. destruct H as [t1 [u1 [t2 [H1 [H2 ->]]]]].
    destruct (IH t2 u1 H2) as [Hw Hp].
    rewrite writes_app, publishes_app, Hw, Hp.
    rewrite (process_table_ok _ _ _ _ _ _ H1).
    pose proof (process_table_no_publish macros output_dir k v) as Hnp.
    rewrite H1 in Hnp. cbn [fst] in Hnp. rewrite Hnp.
    cbn [keys map fst filter]. fold (keys tbls).
    destruct (String.eqb k "index"); now split.
Qed.

Lemma get_index_rst_quiet (self : Conventor) : quiet (fst (get_index_rst self)).
Proof.
  unfold get_index_rst. apply bind_quiet; [apply lift_quiet|].
  intros secs. apply for_fold_quiet. intros b a. apply index_section_quiet.
Qed.

Lemma process_ok_inv (self : Conventor) (output_dir : path) (t : list event)
  (u : unit) :
  process realpath io_error pt_get_string self output_dir = (t, Ok u) ->
  exists tt1 ti index,
    for_fold (fun _ kv => process_table realpath io_error pt_get_string (macros self)
                            output_dir (fst kv) (snd kv)) (tables self) tt
    = (tt1, Ok tt)
    /\ get_index_rst self = (ti, Ok index)
    /\ t = (tt1 ++ ti
            ++ [WriteText (join output_dir (of_string "index.rst")) index;
                PublishFile (join output_dir (of_string "index.rst"))
                            (join output_dir (of_string "index.html"))])%list.
Proof.
  unfold process. intros H.
  apply bind_ok_inv in H. destruct H as [t1 [[] [t2 [H1 [H ->]]]]].
  apply bind_ok_inv in H. destruct H as [t3 [index [t4 [H3 [H ->]]]]].
  apply bind_ok_inv in H. destruct H as [t5 [[] [t6 [H5 [H ->]]]]].
  apply emit_inv in H5, H. subst. now exists t1, t3, index.
Qed.

(** X19: a run that succeeds ends by writing the composed index to
    index.rst and handing it to docutils for index.html; nothing is
    published before that. *)
Theorem successful_run_ends_with_index :
  forall (self : Conventor) (output_dir : path) (t : list event),
    process realpath io_error pt_get_string self output_dir = (t, Ok tt) ->
    exists (t0 : list event) (index : string),
      snd (get_index_rst self) = Ok index
      /\ publishes t0 = false
      /\ t = (t0 ++ [WriteText (join output_dir (of_string "index.rst")) index;
                     PublishFile (join output_dir (of_string "index.rst"))
                                 (join output_dir (of_string "index.html"))])%list.
Proof.
  intros self output_dir t H. apply process_ok_inv in H.
  destruct H as [tt1 [ti [index [Hloop [Hindex ->]]]]].
  exists (tt1 ++ ti)%list, index. split; [now rewrite Hindex|]. split.
  - rewrite publishes_app. destruct (tables_loop_ok _ _ _ _ _ _ Hloop) as [_ ->].
    pose proof (get_index_rst_quiet self) as Hq. rewrite Hindex in Hq.
    now apply quiet_publishes in Hq.
  - now rewrite app_assoc.
Qed.

(** X20: the files a run that succeeds writes are, in order, one for
    every table other than "index", in the order of the namespace, each
    at the path made from the table's name, then index.rst, then the
    index.html that docutils writes; it writes no other file. *)
Theorem successful_run_writes_each_table_once :
  forall (self : Conventor) (output_dir : path) (t : list event),
    process realpath io_error pt_get_string self output_dir = (t, Ok tt) ->
    written_files t
    = (map (table_path output_dir)
           (filter (fun k => negb (String.eqb k "index")) (keys (tables self)))
       ++ [join output_dir (of_string "index.rst");
           join output_dir (of_string "index.html")])%list.
Proof.
  intros self output_dir t H. apply process_ok_inv in H.
  destruct H as [tt1 [ti [index [Hloop [Hindex ->]]]]].
  rewrite !written_files_app.
  destruct (tables_loop_ok _ _ _ _ _ _ Hloop) as [Hw Hp].
  rewrite (written_files_no_publish _ Hp), Hw.
  pose proof (get_index_rst_quiet self) as Hq. rewrite Hindex in Hq.
  cbn [fst] in Hq.
  rewrite (written_files_no_publish _ (quiet_publishes _ Hq)),
    (quiet_writes _ Hq).
  reflexivity.
Qed.

(** X21: the run stops at the first table that raises (a macro that
    does not compile, a definition that cannot be rendered, a failed
    mkdir or write): the tables before it stay written, no later table
    is touched, the index is not written and nothing is published. *)
Theorem failing_table_aborts_run :
  forall (self : Conventor) (output_dir : path) (before after : dict yaml)
         (table : string) (contents : yaml) (tb te : list event) (e : exn),
    tables self = (before ++ (table, contents) :: after)%list ->
    for_fold (fun _ kv => process_table realpath io_error pt_get_string (macros self)
                            output_dir (fst kv) (snd kv)) before tt
    = (tb, Ok tt) ->
    process_table realpath io_error pt_get_string (macros self) output_dir table contents
    = (te, Raise e) ->
    process realpath io_error pt_get_string self output_dir = ((tb ++ te)%list, Raise e)
    /\ publishes (tb ++ te) = false
    /\ writes (tb ++ te)
       = (map (table_path output_dir)
              (filter (fun k => negb (String.eqb k "index")) (keys before))
          ++ writes te)%list.
Proof.
  intros self output_dir before after table contents tb te e Htables Hbefore Htable.
  destruct (tables_loop_ok _ _ _ _ _ _ Hbefore) as [Hw Hp].
  split; [|split].
  - unfold process. rewrite Htables, for_fold_split, Hbefore.
    cbn [for_fold bind fst snd]. rewrite Htable. reflexivity.
  - rewrite publishes_app, Hp.
    pose proof (process_table_no_publish (macros self) output_dir table contents)
      as Hnp.
    now rewrite Htable in Hnp.
  - now rewrite writes_app, Hw.
Qed.

End PublisherProperties.

(** ** The properties at concrete inputs *)

(** *** The models of [re], of the loader and of the table layout at work *)

Example sub_x_star : Re.sub "x*" (YStr "-") (YStr "abxd") = Ok (YStr "-a-b--d-").
Proof. reflexivity. Qed.

Example sub_dot_star : Re.sub ".*" (YStr "x") (YStr "abc") = Ok (YStr "xx").
Proof. reflexivity. Qed.

Example sub_strip : Re.sub "[\W_]+" (YStr "") (YStr "a_1 -b") = Ok (YStr "a1b").
Proof. reflexivity. Qed.

Example box_table_one_row :
  Demo.box_table [(YStr "k1", YStr "v1")]
  = "+----+----+" ++ nl ++ "| k1 | v1 |" ++ nl ++ "+----+----+".
Proof. reflexivity. Qed.

Example load_root :
  __init__ Demo.realpath Demo.open_yaml (of_string "docs/root.yaml")
  = ([Warn (include_escape_warning "../secret.yaml")],
     Ok {| macros := Demo.no_macros;
           sections := YSeq [];
           tables := [("t1", YMap [("k1", YStr "v1")]);
                      ("extra/t2", YMap [("k2", YStr "v2")])] |}).
Proof. vm_compute. reflexivity. Qed.

(** [Path.resolve()] gives the root [/] to a path that starts with two
    slashes: an include entry and a table name written that way, which
    point inside the directory, are treated as inside. *)
Example double_slash_include_is_inside :
  Demo.realpath (include_path (of_string "docs/root.yaml") "//home/author/docs/extra.yaml")
  = Ok (Demo.docs "extra.yaml")
  /\ include_one Demo.realpath Demo.open_yaml (of_string "docs/root.yaml") []
       (YStr "//home/author/docs/extra.yaml")
     = ([], Ok [("extra/t2", YMap [("k2", YStr "v2")])]).
Proof. split; vm_compute; reflexivity. Qed.

Example double_slash_table_is_inside :
  let dest := table_path Demo.out "//home/author/build/t" in
  process_table Demo.realpath Demo.disk_ok Demo.box_table Demo.no_macros Demo.out
    "//home/author/build/t" YNull
  = ([Mkdir (parent dest); WriteText dest (no_entries "//home/author/build/t")], Ok tt).
Proof. vm_compute. reflexivity. Qed.

(** An include entry that is a symbolic link to a file outside the
    directory of the root document is skipped: the check is made on the
    target of the link. *)
Example linked_include_is_skipped :
  include_one Demo.realpath_with_link Demo.open_yaml (of_string "docs/root.yaml") []
    (YStr "link.yaml")
  = ([Warn (include_escape_warning "link.yaml")], Ok []).
Proof. vm_compute. reflexivity. Qed.

(** An include entry with the character U+0000 ends the load in
    [resolve()], before anything is logged or read. *)
Example nul_include_raises :
  include_one Demo.realpath Demo.open_yaml (of_string "docs/root.yaml") []
    (YStr (String "000" "x.yaml"))
  = ([], Raise ValueError).
Proof. vm_compute. reflexivity. Qed.

Ltac nodup_keys :=
  unfold wf_dict, keys; simpl;
  repeat (constructor; [simpl; intuition discriminate|]); constructor.

Lemma macro_substitute_sequential_witness :
  let ev := [("a", YStr "b"); ("b", YStr "c")] in
  let m := [("everywhere", YMap ev); ("left", YMap [("c", YStr "d")])] in
  dict_get "everywhere" m = Some (YMap ev)
  /\ dict_update ev [("c", YStr "d")]
     = [("a", YStr "b"); ("b", YStr "c"); ("c", YStr "d")]
  /\ macro_substitute (YMap m) (YStr "a") "left" = Ok (YStr "d").
Proof.
  intros ev m. split; [reflexivity|]. split; [reflexivity|].
  exact (proj1 macro_substitute_sequential m ev "left" (YStr "a")
           [("a", YStr "b")] [("c", YStr "d")] "b" (YStr "c")
           eq_refl eq_refl).
Defined.

Lemma substitute_scope_independent_witness :
  wf_dict [("a", YStr "b"); ("b", YStr "c")]
  /\ macro_substitute (YMap [("everywhere", YMap [("a", YStr "b"); ("b", YStr "c")])])
       (YStr "a") "title"
     = macro_substitute (YMap [("everywhere", YMap [("a", YStr "b"); ("b", YStr "c")])])
         (YStr "a") "everywhere".
Proof.
  assert (H : wf_dict [("a", YStr "b"); ("b", YStr "c")]) by nodup_keys.
  split; [exact H|].
  exact (substitute_scope_independent _ (YStr "a") "title" "everywhere" H).
Defined.

Lemma unsorted_rows_in_insertion_order_witness :
  let d := [("k2", YStr "v2"); ("k1", YStr "v1")] in
  wf_dict d
  /\ truthy (re_sort_flag d) = false
  /\ table_rows Demo.no_macros d
     = Ok [(YStr "k2", YStr "v2"); (YStr "k1", YStr "v1")]
  /\ get_rst_table Demo.box_table Demo.no_macros "t" (YMap d)
     = Ok (indent_rows
             (Demo.box_table [(YStr "k2", YStr "v2"); (YStr "k1", YStr "v1")])).
Proof.
  intros d.
  assert (Hwf : wf_dict d) by nodup_keys.
  split; [exact Hwf|]. split; [reflexivity|].
  destruct (unsorted_rows_in_insertion_order Demo.box_table Demo.no_macros "t" d
              Hwf eq_refl) as [Hrows Htext].
  split; [exact Hrows|].
  apply Htext. discriminate.
Defined.

Lemma sorted_rows_by_alnum_key_witness :
  let d := [(re_sort, YBool true);
            ("B-2", YStr "x"); ("a_1", YStr "y"); ("A 0", YStr "z")] in
  truthy (re_sort_flag d) = true
  /\ exists ks : list string,
       Permutation ks (filter not_reserved (keys d))
       /\ StronglySorted
            (fun a b => String.leb (strip_non_alnum a) (strip_non_alnum b) = true) ks
       /\ (forall sk : string,
              filter (fun k => String.eqb (strip_non_alnum k) sk) ks
              = filter (fun k => String.eqb (strip_non_alnum k) sk)
                  (filter not_reserved (keys d)))
       /\ table_rows Demo.no_macros d = map_result (row_of Demo.no_macros d) ks.
Proof.
  intros d. split; [reflexivity|].
  exact (proj1 (proj2 sorted_rows_by_alnum_key) Demo.no_macros d eq_refl).
Defined.

Lemma index_section_fragment_witness :
  let macros := YMap [("everywhere", YMap []); ("title", YMap [("T", YStr "Title")])] in
  let s := [("title", YStr ("T" ++ nl ++ "of two lines"));
            ("anchor", YInt 7);
            ("contents", YStr "C")] in
  macro_substitute macros (YStr ("T" ++ nl ++ "of two lines")) "title"
  = Ok (YStr ("Title" ++ nl ++ "of two lines"))
  /\ macro_substitute macros (YStr "C") "contents" = Ok (YStr "C")
  /\ py_str (YInt 7) = Ok "7"
  /\ index_section macros "" (YMap s)
     = ([], Ok (nl ++ ".. _7:" ++ nl ++ nl
                ++ "------------" ++ nl
                ++ "Title" ++ nl ++ "of two lines" ++ nl
                ++ "------------" ++ nl ++ nl ++ "C")).
Proof.
  intros macros s. split; [reflexivity|]. split; [reflexivity|].
  split; [reflexivity|].
  exact (proj1 (proj1 index_section_fragment macros "" s _ _
                  ("Title" ++ nl ++ "of two lines") "C" "7"
                  eq_refl eq_refl eq_refl eq_refl eq_refl eq_refl
                  (fun _ _ => eq_refl))).
Defined.

Lemma escaping_table_warned_and_written_witness :
  let contents := YMap [("k1", YStr "v1")] in
  let text := indent_rows (Demo.box_table [(YStr "k1", YStr "v1")]) in
  Demo.realpath Demo.out = Ok (of_string "/home/author/build")
  /\ Demo.realpath (table_path Demo.out "../escape")
     = Ok (of_string "/home/author/escape.rst")
  /\ in_parents (of_string "/home/author/build") (of_string "/home/author/escape.rst")
     = false
  /\ process_table Demo.realpath Demo.disk_ok Demo.box_table Demo.no_macros Demo.out
       "../escape" contents
     = ([Warn (table_escape_warning "../escape");
         Mkdir (parent (table_path Demo.out "../escape"));
         WriteText (table_path Demo.out "../escape") text],
        Ok tt)
  /\ Demo.realpath (table_path Demo.out "t1")
     = Ok (of_string "/home/author/build/t1.rst")
  /\ in_parents (of_string "/home/author/build") (of_string "/home/author/build/t1.rst")
     = true
  /\ process_table Demo.realpath Demo.disk_ok Demo.box_table Demo.no_macros Demo.out
       "t1" contents
     = ([Mkdir (parent (table_path Demo.out "t1"));
         WriteText (table_path Demo.out "t1") text],
        Ok tt).
Proof.
  intros contents text.
  split; [reflexivity|]. split; [reflexivity|]. split; [reflexivity|]. split.
  - destruct (escaping_table_warned_and_written Demo.realpath Demo.disk_ok
                Demo.box_table Demo.no_macros Demo.out "../escape" contents text
                (of_string "/home/author/build") (of_string "/home/author/escape.rst"))
      as [H _].
    destruct H as [Hout _]; [discriminate|reflexivity..|].
    apply Hout. reflexivity.
  - split; [reflexivity|]. split; [reflexivity|].
    destruct (escaping_table_warned_and_written Demo.realpath Demo.disk_ok
                Demo.box_table Demo.no_macros Demo.out "t1" contents text
                (of_string "/home/author/build") (of_string "/home/author/build/t1.rst"))
      as [H _].
    destruct H as [_ Hin]; [discriminate|reflexivity..|].
    apply Hin. reflexivity.
Defined.

(** C7 as stated fails: the destination of the table "index" is inside
    the output directory, and the table is not written. *)
Lemma index_table_is_not_written :
  let contents := YMap [("k1", YStr "v1")] in
  Demo.realpath Demo.out = Ok (of_string "/home/author/build")
  /\ Demo.realpath (table_path Demo.out "index")
     = Ok (of_string "/home/author/build/index.rst")
  /\ in_parents (of_string "/home/author/build")
                (of_string "/home/author/build/index.rst") = true
  /\ process_table Demo.realpath Demo.disk_ok Demo.box_table Demo.no_macros Demo.out
       "index" contents
     = ([Warn skip_index_warning], Ok tt)
  /\ writes (fst (process_table Demo.realpath Demo.disk_ok Demo.box_table
                    Demo.no_macros Demo.out "index" contents)) = [].
Proof. repeat split; vm_compute; reflexivity. Qed.

Lemma escaping_include_skipped_witness :
  let root := of_string "docs/root.yaml" in
  Demo.realpath (include_path root "../secret.yaml")
  = Ok (of_string "/home/author/secret.yaml")
  /\ Demo.realpath (parent root) = Ok (of_string "/home/author/docs")
  /\ in_parents (of_string "/home/author/docs") (of_string "/home/author/secret.yaml")
     = false
  /\ (forall input_data : dict yaml,
         include_one Demo.realpath Demo.open_yaml root input_data
           (YStr "../secret.yaml")
         = ([Warn (include_escape_warning "../secret.yaml")], Ok input_data))
  /\ (forall (before after : list yaml) (input_data : dict yaml),
         snd (for_fold (include_one Demo.realpath Demo.open_yaml root)
                       (before ++ YStr "../secret.yaml" :: after) input_data)
         = snd (for_fold (include_one Demo.realpath Demo.open_yaml root)
                         (before ++ after) input_data)).
Proof.
  intros root. split; [reflexivity|]. split; [reflexivity|]. split; [reflexivity|].
  exact (escaping_include_skipped Demo.realpath Demo.open_yaml root "../secret.yaml"
           (of_string "/home/author/secret.yaml") (of_string "/home/author/docs")
           eq_refl eq_refl eq_refl).
Defined.

Lemma load_needs_include_macros_sections_witness :
  Demo.open_yaml (of_string "docs/empty.yaml")
  = Ok (YMap [("include", YSeq []);
              ("macros", Demo.no_macros);
              ("sections", YSeq []);
              ("t1", YMap [("k1", YStr "v1")])])
  /\ __init__ Demo.realpath Demo.open_yaml (of_string "docs/empty.yaml")
     = ([], Ok {| macros := Demo.no_macros;
                  sections := YSeq [];
                  tables := [("t1", YMap [("k1", YStr "v1")])] |}).
Proof.
  split; [reflexivity|].
  exact (proj2 (load_needs_include_macros_sections Demo.realpath Demo.open_yaml
                  (of_string "docs/empty.yaml") _ eq_refl) eq_refl).
Defined.

(** C5 as stated fails: a root document with "macros" and "sections"
    and no "include" key does not load. *)
Lemma load_without_include_fails :
  Demo.open_yaml (of_string "docs/plain.yaml")
  = Ok (YMap [("macros", Demo.no_macros);
              ("sections", YSeq []);
              ("t1", YMap [("k1", YStr "v1")])])
  /\ __init__ Demo.realpath Demo.open_yaml (of_string "docs/plain.yaml")
     = ([], Raise (KeyError "include")).
Proof. split; vm_compute; reflexivity. Qed.

(** C3 fails on the code: the include "extra.txt" is warned about and
    merged into the namespace all the same. *)
Lemma non_yaml_include_is_loaded :
  Demo.realpath (include_path (of_string "docs/notes.yaml") "extra.txt")
  = Ok (Demo.docs "extra.txt")
  /\ suffix (Demo.docs "extra.txt") = ".txt"
  /\ __init__ Demo.realpath Demo.open_yaml (of_string "docs/notes.yaml")
     = ([Warn (not_yaml_warning "extra.txt")],
        Ok {| macros := Demo.no_macros;
              sections := YSeq [];
              tables := [("extra/t", YMap [("k", YStr "v")])] |}).
Proof. repeat split; vm_compute; reflexivity. Qed.

Lemma scope_rules_override_in_place_witness :
  let ev := [("a", YStr "1"); ("b", YStr "2")] in
  let sc := [("c", YStr "3"); ("a", YStr "4")] in
  let m := [("everywhere", YMap ev); ("left", YMap sc)] in
  wf_dict sc
  /\ exists rules : dict yaml,
       macros_to_process (YMap m) "left" = Ok rules
       /\ keys rules = ["a"; "b"; "c"]
       /\ forall k : string,
            dict_get k rules = match dict_get k sc with
                               | Some v => Some v
                               | None => dict_get k ev
                               end.
Proof.
  intros ev sc m.
  assert (Hwf : wf_dict sc) by nodup_keys.
  split; [exact Hwf|].
  exact (scope_rules_override_in_place m ev sc "left" Hwf eq_refl eq_refl).
Defined.

Lemma substitute_keeps_strings_witness :
  macro_substitute (YMap [("everywhere", YMap [("a+", YStr "b")])]) (YStr "caat") "left"
  = Ok (YStr "cbt")
  /\ exists s' : string, YStr "cbt" = YStr s'.
Proof.
  split; [reflexivity|].
  exact (substitute_keeps_strings
           (YMap [("everywhere", YMap [("a+", YStr "b")])]) "caat" "left"
           (YStr "cbt") eq_refl).
Defined.

Lemma substitute_non_string_witness :
  macro_substitute Demo.no_macros (YInt 5) "right" = Ok (YInt 5)
  /\ macros_to_process Demo.no_macros "right" = Ok []
  /\ YInt 5 = YInt 5.
Proof.
  split; [reflexivity|].
  apply (substitute_non_string Demo.no_macros (YInt 5) (YInt 5) "right");
    [discriminate|reflexivity].
Defined.

Lemma one_row_per_key_witness :
  let d := [(re_sort, YBool true); ("b", YStr "1"); ("a", YStr "2")] in
  table_rows Demo.no_macros d = Ok [(YStr "a", YStr "2"); (YStr "b", YStr "1")]
  /\ List.length [(YStr "a", YStr "2"); (YStr "b", YStr "1")] = 2.
Proof.
  intros d. split; [reflexivity|].
  exact (one_row_per_key Demo.no_macros d _ eq_refl).
Defined.

Lemma re_sort_only_reorders_witness :
  let d := [(re_sort, YBool true); ("b", YStr "1"); ("a", YStr "2")] in
  wf_dict d
  /\ truthy (re_sort_flag d) = true
  /\ exists rows0 : list (yaml * yaml),
       map_result (row_of_item Demo.no_macros)
         (filter (fun kv => not_reserved (fst kv)) d) = Ok rows0
       /\ Permutation [(YStr "a", YStr "2"); (YStr "b", YStr "1")] rows0.
Proof.
  intros d.
  assert (Hwf : wf_dict d) by nodup_keys.
  split; [exact Hwf|]. split; [reflexivity|].
  exact (re_sort_only_reorders Demo.no_macros d _ Hwf eq_refl eq_refl).
Defined.

Lemma table_definition_not_a_mapping_witness :
  get_rst_table Demo.box_table Demo.no_macros "t" (YSeq [YStr "row"])
  = Raise AttributeError
  /\ get_rst_table Demo.box_table Demo.no_macros "t" (YStr "")
     = Ok (no_entries "t").
Proof.
  split.
  - apply (table_definition_not_a_mapping Demo.box_table Demo.no_macros "t"
             (YSeq [YStr "row"])). discriminate.
  - apply (table_definition_not_a_mapping Demo.box_table Demo.no_macros "t"
             (YStr "")). discriminate.
Defined.

Lemma section_without_title_or_contents_skipped_witness :
  field [("title", YStr "T"); ("contents", YNull)] "contents" YNull = YNull
  /\ index_section Demo.no_macros "so far" (YMap [("title", YStr "T"); ("contents", YNull)])
     = ([Warn "Empty section found!"], Ok "so far").
Proof.
  split; [reflexivity|].
  apply (section_without_title_or_contents_skipped Demo.no_macros "so far"
           [("title", YStr "T"); ("contents", YNull)]).
  right. reflexivity.
Defined.

Lemma index_of_concatenation_witness :
  let one := [YMap [("title", YStr "A"); ("contents", YStr "a")]] in
  let two := [YMap [("title", YStr "B")];
              YMap [("title", YStr "C"); ("contents", YStr "c"); ("hidden", YBool true)]] in
  get_index_rst {| macros := Demo.no_macros; sections := YSeq (one ++ two); tables := [] |}
  = ([Warn "Empty section found!"],
     Ok (nl ++ "-" ++ nl ++ "A" ++ nl ++ "-" ++ nl ++ nl ++ "a" ++ "c")).
Proof.
  intros one two.
  exact (index_of_concatenation Demo.no_macros [] one two [] _ _ _ eq_refl eq_refl).
Defined.

Lemma plain_table_name_stays_inside_witness :
  p_root (of_string ("sub/t1" ++ ".rst")) = Relative
  /\ forallb plain_part (p_parts (of_string ("sub/t1" ++ ".rst"))) = true
  /\ in_parents (lexical Demo.cwd Demo.out)
                (lexical Demo.cwd (table_path Demo.out "sub/t1")) = true
  /\ ~ In (Warn (table_escape_warning "sub/t1"))
          (fst (process_table Demo.realpath Demo.disk_ok Demo.box_table Demo.no_macros
                  Demo.out "sub/t1" (YMap [("k1", YStr "v1")]))).
Proof.
  split; [reflexivity|]. split; [reflexivity|].
  destruct (plain_table_name_stays_inside Demo.cwd Demo.out "sub/t1" eq_refl eq_refl)
    as [Hin [_ Hquiet]].
  split; [exact Hin|].
  exact (Hquiet Demo.disk_ok Demo.box_table Demo.no_macros (YMap [("k1", YStr "v1")])).
Defined.

Lemma plain_include_is_read_witness :
  let root := of_string "docs/root.yaml" in
  p_root (of_string "extra.yaml") = Relative
  /\ forallb plain_part (p_parts (of_string "extra.yaml")) = true
  /\ has_nul (include_path root "extra.yaml") = false
  /\ exists i_path root_dir : path,
       resolve Demo.cwd (include_path root "extra.yaml") = Ok i_path
       /\ resolve Demo.cwd (parent root) = Ok root_dir
       /\ in_parents root_dir i_path = true
       /\ snd (include_one (resolve Demo.cwd) Demo.open_yaml root []
                 (YStr "extra.yaml"))
          = match Demo.open_yaml i_path with
            | Ok (YMap included) =>
                Ok (dict_update []
                      (dict_of_list
                         (map (fun kv => (stem i_path ++ "/" ++ fst kv, snd kv))
                              included)))
            | Ok _ => Raise AttributeError
            | Raise e => Raise e
            end.
Proof.
  intros root. split; [reflexivity|]. split; [reflexivity|]. split; [reflexivity|].
  refine (plain_include_is_read Demo.cwd Demo.open_yaml root [] "extra.yaml"
            eq_refl _ eq_refl eq_refl).
  discriminate.
Defined.

Lemma included_keys_are_qualified_witness :
  let root := of_string "docs/root.yaml" in
  let inc := [("t2", YMap [("k2", YStr "v2")])] in
  Demo.realpath (include_path root "extra.yaml") = Ok (Demo.docs "extra.yaml")
  /\ Demo.realpath (parent root) = Ok (of_string "/home/author/docs")
  /\ in_parents (of_string "/home/author/docs") (Demo.docs "extra.yaml") = true
  /\ Demo.open_yaml (Demo.docs "extra.yaml") = Ok (YMap inc)
  /\ wf_dict inc
  /\ exists d' : dict yaml,
       snd (include_one Demo.realpath Demo.open_yaml root
              [("extra/t2", YNull); ("t1", YNull)] (YStr "extra.yaml")) = Ok d'
       /\ (forall k v, In (k, v) inc ->
             dict_get (stem (Demo.docs "extra.yaml") ++ "/" ++ k) d' = Some v)
       /\ (forall q,
             (forall k, In k (keys inc) ->
                        q <> stem (Demo.docs "extra.yaml") ++ "/" ++ k) ->
             dict_get q d' = dict_get q [("extra/t2", YNull); ("t1", YNull)]).
Proof.
  intros root inc.
  assert (Hwf : wf_dict inc) by nodup_keys.
  repeat (split; [reflexivity|]). split; [exact Hwf|].
  exact (included_keys_are_qualified Demo.realpath Demo.open_yaml root
           [("extra/t2", YNull); ("t1", YNull)] inc "extra.yaml"
           (Demo.docs "extra.yaml") (of_string "/home/author/docs")
           eq_refl eq_refl eq_refl eq_refl Hwf).
Defined.

Lemma reserved_keys_are_not_tables_witness :
  snd (__init__ Demo.realpath Demo.open_yaml (of_string "docs/root.yaml"))
  = Ok {| macros := Demo.no_macros;
          sections := YSeq [];
          tables := [("t1", YMap [("k1", YStr "v1")]);
                     ("extra/t2", YMap [("k2", YStr "v2")])] |}
  /\ dict_get "macros" [("t1", YMap [("k1", YStr "v1")]);
                        ("extra/t2", YMap [("k2", YStr "v2")])] = None.
Proof.
  split; [reflexivity|].
  exact (proj1 (proj2 (reserved_keys_are_not_tables Demo.realpath Demo.open_yaml
                         (of_string "docs/root.yaml") _ _ eq_refl))).
Defined.

Lemma loaded_tables_have_unique_keys_witness :
  wf_dict [("t1", YMap [("k1", YStr "v1")]); ("extra/t2", YMap [("k2", YStr "v2")])].
Proof.
  refine (loaded_tables_have_unique_keys Demo.realpath Demo.open_yaml
            (of_string "docs/root.yaml") _ _
            {| macros := Demo.no_macros;
               sections := YSeq [];
               tables := [("t1", YMap [("k1", YStr "v1")]);
                          ("extra/t2", YMap [("k2", YStr "v2")])] |}
            eq_refl _ eq_refl).
  nodup_keys.
Defined.

Lemma failing_include_aborts_load_witness :
  let d0 := [("include", YSeq [YStr "../secret.yaml"; YStr "absent.yaml"; YStr "extra.yaml"]);
             ("macros", Demo.no_macros); ("sections", YSeq [])] in
  let world := fun p => if path_eqb p (of_string "docs/broken.yaml") then Ok (YMap d0)
                        else Demo.open_yaml p in
  __init__ Demo.realpath world (of_string "docs/broken.yaml")
  = ([Warn (include_escape_warning "../secret.yaml")], Raise OSError).
Proof.
  intros d0 world.
  exact (failing_include_aborts_load Demo.realpath world (of_string "docs/broken.yaml")
           d0 _ [YStr "../secret.yaml"] [YStr "extra.yaml"] (YStr "absent.yaml")
           _ [] OSError eq_refl eq_refl eq_refl eq_refl).
Defined.

Lemma successful_run_ends_with_index_witness :
  let self := {| macros := Demo.no_macros;
                 sections := YSeq [YMap [("title", YStr "X"); ("contents", YStr "hi")]];
                 tables := [("index", YNull); ("t1", YMap [("k1", YStr "v1")])] |} in
  snd (process Demo.realpath Demo.disk_ok Demo.box_table self Demo.out) = Ok tt
  /\ exists (t0 : list event) (index : string),
       snd (get_index_rst self) = Ok index
       /\ publishes t0 = false
       /\ fst (process Demo.realpath Demo.disk_ok Demo.box_table self Demo.out)
          = (t0 ++ [WriteText (join Demo.out (of_string "index.rst")) index;
                    PublishFile (join Demo.out (of_string "index.rst"))
                                (join Demo.out (of_string "index.html"))])%list.
Proof.
  intros self. split; [reflexivity|].
  exact (successful_run_ends_with_index Demo.realpath Demo.disk_ok Demo.box_table
           self Demo.out _ eq_refl).
Defined.

Lemma successful_run_writes_each_table_once_witness :
  let self := {| macros := Demo.no_macros;
                 sections := YSeq [YMap [("title", YStr "X"); ("contents", YStr "hi")]];
                 tables := [("index", YNull); ("t1", YMap [("k1", YStr "v1")]);
                            ("sub/t2", YNull)] |} in
  snd (process Demo.realpath Demo.disk_ok Demo.box_table self Demo.out) = Ok tt
  /\ written_files (fst (process Demo.realpath Demo.disk_ok Demo.box_table self Demo.out))
     = [of_string "build/t1.rst"; of_string "build/sub/t2.rst";
        of_string "build/index.rst"; of_string "build/index.html"].
Proof.
  intros self. split; [reflexivity|].
  exact (successful_run_writes_each_table_once Demo.realpath Demo.disk_ok
           Demo.box_table self Demo.out _ eq_refl).
Defined.

Lemma failing_table_aborts_run_witness :
  let self := {| macros := Demo.no_macros;
                 sections := YSeq [];
                 tables := [("t1", YMap [("k1", YStr "v1")]);
                            ("bad", YSeq [YStr "row"]);
                            ("t3", YMap [("k3", YStr "v3")])] |} in
  process Demo.realpath Demo.disk_ok Demo.box_table self Demo.out
  = ([Mkdir (of_string "build");
      WriteText (of_string "build/t1.rst")
                (indent_rows (Demo.box_table [(YStr "k1", YStr "v1")]));
      Mkdir (of_string "build")],
     Raise AttributeError).
Proof.
  intros self.
  exact (proj1 (failing_table_aborts_run Demo.realpath Demo.disk_ok Demo.box_table
                  self Demo.out [("t1", YMap [("k1", YStr "v1")])]
                  [("t3", YMap [("k3", YStr "v3")])] "bad" (YSeq [YStr "row"])
                  _ _ AttributeError eq_refl eq_refl eq_refl)).
Defined.

Lemma unmatched_rules_change_nothing_witness :
  let rules := [("x+", YStr "y"); ("[0-9]", YStr "#")] in
  macros_to_process (YMap [("everywhere", YMap rules)]) "left" = Ok rules
  /\ macro_substitute (YMap [("everywhere", YMap rules)]) (YStr "abc") "left"
     = Ok (YStr "abc").
Proof.
  intros rules. split; [reflexivity|].
  apply (unmatched_rules_change_nothing (YMap [("everywhere", YMap rules)])
           "left" "abc" rules eq_refl).
  repeat constructor; eexists _, _; repeat split; reflexivity.
Defined.

Lemma included_keys_come_last_witness :
  let root := of_string "docs/root.yaml" in
  let inc := [("t2", YMap [("k2", YStr "v2")])] in
  Demo.realpath (include_path root "extra.yaml") = Ok (Demo.docs "extra.yaml")
  /\ Demo.open_yaml (Demo.docs "extra.yaml") = Ok (YMap inc)
  /\ wf_dict inc
  /\ exists d' : dict yaml,
       snd (include_one Demo.realpath Demo.open_yaml root [("t1", YNull)]
              (YStr "extra.yaml"))
       = Ok d'
       /\ keys d'
          = (keys [("t1", YNull)]
             ++ filter (fun q => negb (has_key q (keys [("t1", YNull)])))
                  (map (fun k => (stem (Demo.docs "extra.yaml") ++ "/" ++ k)%string)
                       (keys inc)))%list.
Proof.
  intros root inc.
  assert (Hwf : wf_dict inc) by nodup_keys.
  split; [reflexivity|]. split; [reflexivity|]. split; [exact Hwf|].
  exact (included_keys_come_last Demo.realpath Demo.open_yaml root [("t1", YNull)] inc
           "extra.yaml" (Demo.docs "extra.yaml") (of_string "/home/author/docs")
           eq_refl eq_refl eq_refl eq_refl Hwf).
Defined.
